(** * A dependency-injection container: registration, resolution, lifetimes,
      scopes and disposal.

    The development embeds [src/index.ts] (the revision with the parent
    fallback in [ServiceScope.get] and the self-resolving [ServiceHost.get]).

    - JavaScript values are a small inductive type with the language's
      truthiness; objects live in a heap and are compared by reference.
    - A [TaggedService] is an object: it lives in a list of binding objects
      and is named by its index, so that the scope cache can be keyed "by the
      binding object itself" and the singleton [store] can be assigned in
      place.
    - The closures returned by [ServiceHost.#createServiceFactory] are
      defunctionalised ([FactoryFun], [FactoryArr], [FactoryVal]); any other
      function of type [ServiceFactory] is a [FactoryCustom] carrying user
      code.
    - User code (constructors, plain factory functions, custom factories) is a
      finitely branching tree of calls back into the container ([Code]).  It
      reaches the container only through what it is handed: the resolution
      context it runs in and the registration callback of that call.
    - Release methods ([Symbol.dispose], [Symbol.asyncDispose]) of user
      objects complete or raise; every call of one is appended to a log kept
      in the state, which is what the ordering properties are about.  An
      [await]ed call is run to completion before the caller goes on.
    - Resolution can recurse without bound (circular dependency graphs are
      unsupported), so the interpreter takes fuel and [Timeout] stands for a
      run that did not finish within it.
    - One root container (a [ServiceHost]) and any number of scopes created
      from it make up a [World]. *)

From stdpp Require Import base option list gmap strings.

Set Default Proof Using "Type".

(** ** Values *)

(** A resolution context: the root container or one of its scopes. *)
Inductive Ctx : Type :=
| CHost
| CScope (s : nat).

#[global] Instance Ctx_eq_dec : EqDecision Ctx.
Proof. solve_decision. Defined.

Inductive Value : Type :=
| VUndefined
| VNull
| VBool (b : bool)
| VNum (z : Z)
| VNaN
| VStr (s : string)
| VObj (o : nat)          (* a heap object, by reference *)
| VCtx (c : Ctx).         (* a ServiceCollection object, by reference *)

#[global] Instance Value_eq_dec : EqDecision Value.
Proof. solve_decision. Defined.

(** [if (v)] *)
Definition truthy (v : Value) : bool :=
  match v with
  | VUndefined | VNull | VNaN => false
  | VBool b => b
  | VNum z => negb (Z.eqb z 0)
  | VStr s => negb (String.eqb s EmptyString)
  | VObj _ | VCtx _ => true
  end.

(** The right operand of [in] must be an object. *)
Definition is_object (v : Value) : bool :=
  match v with
  | VObj _ | VCtx _ => true
  | _ => false
  end.

Inductive Error : Type :=
| TypeError (msg : string)
| Thrown (v : Value).

(** ** Service keys

    A key is a constructor value.  Three of them are classes of the library
    itself and are compared against in [get]. *)
Inductive Key : Type :=
| KServiceCollection
| KServiceContainer
| KServiceHost
| KClass (n : nat).

#[global] Instance Key_eq_dec : EqDecision Key.
Proof. solve_decision. Defined.

Definition Key_to_nat (k : Key) : nat :=
  match k with
  | KServiceCollection => 0
  | KServiceContainer => 1
  | KServiceHost => 2
  | KClass n => 3 + n
  end.

Definition Key_of_nat (n : nat) : Key :=
  match n with
  | 0 => KServiceCollection
  | 1 => KServiceContainer
  | 2 => KServiceHost
  | S (S (S m)) => KClass m
  end.

#[global] Instance Key_countable : Countable Key.
Proof. refine (inj_countable' Key_to_nat Key_of_nat _). by intros []. Defined.

(** ** Disposable resources *)

(** What a release method does when it is called.  Release methods are the
    resource's own code: the container sees them complete or raise, and the
    call is recorded in the state's [released] log. *)
Inductive Outcome : Type :=
| Completes
| Raises (e : Error).

(** [None] is "the object has no such method" ([Symbol.asyncDispose in item]
    is false). *)
Record Caps : Type := mkCaps {
  asyncDispose_method : option Outcome;
  dispose_method : option Outcome
}.

Definition no_caps : Caps := mkCaps None None.

Record Obj : Type := mkObj {
  obj_caps : Caps;
  obj_props : gmap string Value
}.

(** ** User code

    The code of constructors, functions and hand-written factories, as far
    as it uses the container through what it is handed: it resolves and
    injects on the collection it runs with, calls the registration callback,
    makes objects, raises and catches.  Code that tears a collection down,
    creates a scope, registers a service or reads a binding object from
    inside a factory or a constructor is not described by this type; where
    what a resolution leaves alone would depend on user code not doing so,
    it is stated for the container's own steps, over the functions [rec_get]
    and [rec_run] of the open recursion, with what is needed of the user
    code as a hypothesis. *)

Inductive Code : Type :=
| Ret (v : Value)
| Throw (e : Error)
| Get (k : Key) (cont : Value → Code)                      (* collection.get(k) *)
| Inject (cls : Key) (args : list Value) (cont : Value → Code)
                                                          (* collection.inject(cls, ...args) *)
| Register (v : Value) (cont : Code)                       (* registerDisposable(v) *)
| New (c : Caps) (cont : Value → Code)                     (* a fresh object *)
| TryCatch (body handler : Code) (cont : Value → Code).    (* try { body } catch { handler } *)

(** A callable value: what [Reflect.getMetadata("inject", f.prototype)]
    gives ([None]: it raises, as for an arrow function, which has no
    prototype), what [new f(...)] runs ([None]: not a constructor), what
    [f(...)] runs ([None]: a class, which cannot be called), and the release
    methods its instances inherit. *)
Record Callable : Type := mkCallable {
  inject_metadata : option (list (string * Key));
  ctor : option (Value → list Value → Code);
  fn : option (list Value → Code);
  instance_caps : Caps
}.

(** ** Bindings *)

Inductive ServiceFactory : Type :=
| FactoryFun (service : Key)
| FactoryArr (base : Key) (service : list Value)
| FactoryVal (service : Value)
| FactoryCustom (body : Code).

Inductive TaggedService : Type :=
| Scoped (factory : ServiceFactory)
| Transient (factory : ServiceFactory)
| Singleton (factory : ServiceFactory) (store : Value).

Inductive Tag : Type := TagScoped | TagTransient | TagSingleton.

Definition tag (t : TaggedService) : Tag :=
  match t with
  | Scoped _ => TagScoped
  | Transient _ => TagTransient
  | Singleton _ _ => TagSingleton
  end.

Definition factory (t : TaggedService) : ServiceFactory :=
  match t with
  | Scoped f | Transient f | Singleton f _ => f
  end.

(** [CompatibleService]: the three shapes [#createServiceFactory] tells
    apart ([typeof service === "function"], [Array.isArray(service)], anything
    else). *)
Inductive CompatibleService : Type :=
| ServiceFun (f : Key)
| ServiceArr (args : list Value)
| ServiceVal (v : Value).

(** ** State *)

Inductive ReleaseKind : Type := AsyncRelease | SyncRelease.

#[global] Instance ReleaseKind_eq_dec : EqDecision ReleaseKind.
Proof. solve_decision. Defined.

Record Scope : Type := mkScope {
  scope_services : gmap nat Value;     (* ServiceScope.#services *)
  scope_dispose : list Value           (* its DisposableRegistry.#dispose *)
}.

Record World : Type := mkWorld {
  heap : list Obj;
  bindings : list TaggedService;       (* the TaggedService objects *)
  services : gmap Key nat;             (* ServiceHost.#services *)
  host_dispose : list Value;           (* the host's DisposableRegistry.#dispose *)
  scopes : list Scope;                 (* the ServiceScope objects *)
  released : list (Value * ReleaseKind)  (* release methods called so far *)
}.

Definition empty_world : World := mkWorld [] [] ∅ [] [] [].

Inductive Res (A : Type) : Type :=
| Ok (a : A) (w : World)
| Err (e : Error) (w : World)
| Timeout.
Arguments Ok {A} a w.
Arguments Err {A} e w.
Arguments Timeout {A}.

Definition bind {A B} (r : Res A) (k : A → World → Res B) : Res B :=
  match r with
  | Ok a w => k a w
  | Err e w => Err e w
  | Timeout => Timeout
  end.

(** [try { r } catch { h }] *)
Definition try_catch {A} (r : Res A) (h : World → Res A) : Res A :=
  match r with
  | Err _ w => h w
  | _ => r
  end.

(** The state a run ends in, when it ends. *)
Definition final {A} (r : Res A) : option World :=
  match r with
  | Ok _ w | Err _ w => Some w
  | Timeout => None
  end.

(** *** Field updates *)

Definition set_heap (h : list Obj) (w : World) : World :=
  mkWorld h (bindings w) (services w) (host_dispose w) (scopes w) (released w).
Definition set_bindings (b : list TaggedService) (w : World) : World :=
  mkWorld (heap w) b (services w) (host_dispose w) (scopes w) (released w).
Definition set_services (m : gmap Key nat) (w : World) : World :=
  mkWorld (heap w) (bindings w) m (host_dispose w) (scopes w) (released w).
Definition set_host_dispose (d : list Value) (w : World) : World :=
  mkWorld (heap w) (bindings w) (services w) d (scopes w) (released w).
Definition set_scopes (s : list Scope) (w : World) : World :=
  mkWorld (heap w) (bindings w) (services w) (host_dispose w) s (released w).
Definition set_released (r : list (Value * ReleaseKind)) (w : World) : World :=
  mkWorld (heap w) (bindings w) (services w) (host_dispose w) (scopes w) r.

(** [new]: the fresh object's reference is the next free index. *)
Definition alloc (c : Caps) (w : World) : nat * World :=
  (length (heap w), set_heap (heap w ++ [mkObj c ∅]) w).

(** [value[key] = v] *)
Definition set_prop (target : Value) (key : string) (v : Value) (w : World) : World :=
  match target with
  | VObj o =>
      set_heap (alter (λ ob, mkObj (obj_caps ob) (<[key:=v]> (obj_props ob))) o (heap w)) w
  | _ => w
  end.

(** [tagged.store = v] *)
Definition set_store (b : nat) (v : Value) (w : World) : World :=
  set_bindings
    (alter (λ t, match t with Singleton f _ => Singleton f v | _ => t end) b (bindings w)) w.

(** [this.#services.get(tagged)] of scope [s]; a missing entry reads as
    [undefined]. *)
Definition scope_cache (w : World) (s b : nat) : Value :=
  default VUndefined (scopes w !! s ≫= λ sc, scope_services sc !! b).

(** [this.#services.set(tagged, v)] of scope [s] *)
Definition set_cache (s b : nat) (v : Value) (w : World) : World :=
  set_scopes
    (alter (λ sc, mkScope (<[b:=v]> (scope_services sc)) (scope_dispose sc)) s (scopes w)) w.

(** ** DisposableRegistry *)

(** [#dispose] of the registry owned by context [r] *)
Definition registry (w : World) (r : Ctx) : list Value :=
  match r with
  | CHost => host_dispose w
  | CScope s => default [] (scope_dispose <$> scopes w !! s)
  end.

Definition set_registry (r : Ctx) (d : list Value) (w : World) : World :=
  match r with
  | CHost => set_host_dispose d w
  | CScope s =>
      set_scopes (alter (λ sc, mkScope (scope_services sc) d) s (scopes w)) w
  end.

(** [register(disposable)]: [this.#dispose.push(disposable)] *)
Definition register (r : Ctx) (disposable : Value) (w : World) : World :=
  set_registry r (registry w r ++ [disposable]) w.

(** *** Teardown

    [async [Symbol.asyncDispose]()].  An [await]ed release is run to
    completion before the loop goes on; a release that raises aborts the
    loop.  A registered ServiceCollection is itself a resource: its
    [Symbol.asyncDispose] tears its own registry down, which is where the
    recursion (and the fuel) comes from. *)

(** [if (Symbol.asyncDispose in item) await item[Symbol.asyncDispose]()] *)
Definition release_async (rec : Ctx → World → Res unit) (item : Value) (w : World)
  : Res unit :=
  match item with
  | VCtx c => rec c (set_released (released w ++ [(item, AsyncRelease)]) w)
  | VObj o =>
      match asyncDispose_method ∘ obj_caps <$> heap w !! o with
      | Some (Some out) =>
          let w := set_released (released w ++ [(item, AsyncRelease)]) w in
          match out with
          | Completes => Ok () w
          | Raises e => Err e w
          end
      | _ => Ok () w
      end
  | _ => Err (TypeError "Cannot use 'in' operator") w
  end.

(** [if (Symbol.dispose in item) item[Symbol.dispose]()] *)
Definition release_sync (item : Value) (w : World) : Res unit :=
  match item with
  | VCtx c => Ok () w
  | VObj o =>
      match dispose_method ∘ obj_caps <$> heap w !! o with
      | Some (Some out) =>
          let w := set_released (released w ++ [(item, SyncRelease)]) w in
          match out with
          | Completes => Ok () w
          | Raises e => Err e w
          end
      | _ => Ok () w
      end
  | _ => Err (TypeError "Cannot use 'in' operator") w
  end.

(** [for (const item of oldDispose) { ... }] *)
Fixpoint dispose_loop (rec : Ctx → World → Res unit) (oldDispose : list Value)
  (w : World) : Res unit :=
  match oldDispose with
  | [] => Ok () w
  | item :: rest =>
      bind (release_async rec item w) (λ _ w,
      bind (release_sync item w) (λ _ w,
      dispose_loop rec rest w))
  end.

Fixpoint asyncDispose (fuel : nat) (r : Ctx) (w : World) : Res unit :=
  match fuel with
  | 0 => Timeout
  | S fuel =>
      let oldDispose := registry w r in
      let w := set_registry r [] w in
      dispose_loop (asyncDispose fuel) oldDispose w
  end.

(** ** Resolution *)

Section Resolution.

(** The classes and functions of the program using the container. *)
Variable classes : Key → Callable.

Section Open.

(** [collection.get] and the run of a piece of user code, one level of
    recursion down. *)
Variable rec_get : Ctx → Key → World → Res Value.
Variable rec_run : Ctx → Ctx → Code → World → Res Value.

(** [new service(...props)]: a fresh [this], then the constructor body;
    a constructor that returns an object replaces [this] by it. *)
Definition construct (self cb : Ctx) (service : Key) (props : list Value)
  (w : World) : Res Value :=
  match ctor (classes service) with
  | None => Err (TypeError "not a constructor") w
  | Some body =>
      let '(o, w) := alloc (instance_caps (classes service)) w in
      bind (rec_run self cb (body (VObj o) props) w) (λ r w,
      Ok (if is_object r then r else VObj o) w)
  end.

(** [service(...props)] *)
Definition call (self cb : Ctx) (service : Key) (props : list Value)
  (w : World) : Res Value :=
  match fn (classes service) with
  | None => Err (TypeError "Class constructor cannot be invoked without 'new'") w
  | Some body => rec_run self cb (body props) w
  end.

(** [for (const [key, injectService] of injectionMetadata)
      value[key] = this.get(injectService)] *)
Fixpoint inject_props (self : Ctx) (value : Value)
  (injectionMetadata : list (string * Key)) (w : World) : Res Value :=
  match injectionMetadata with
  | [] => Ok value w
  | (key, injectService) :: rest =>
      bind (rec_get self injectService w) (λ v w,
      inject_props self value rest (set_prop value key v w))
  end.

(** [ServiceCollection.inject] *)
Definition inject (self cb : Ctx) (service : Key) (props : list Value)
  (w : World) : Res Value :=
  match inject_metadata (classes service) with
  | None => Err (TypeError "Reflect.getMetadata: target is not an object") w
  | Some injectionMetadata =>
      bind (construct self cb service props w) (λ value w,
      inject_props self value injectionMetadata w)
  end.

(** [Symbol.asyncDispose in instance || Symbol.dispose in instance] *)
Definition disposable (w : World) (instance : Value) : option bool :=
  match instance with
  | VCtx _ => Some true
  | VObj o =>
      Some (match obj_caps <$> heap w !! o with
            | Some c => bool_decide (is_Some (asyncDispose_method c))
                        || bool_decide (is_Some (dispose_method c))
            | None => false
            end)
  | _ => None
  end.

Definition registerIfDisposable (instance : Value) (callback : Ctx) (w : World)
  : Res Value :=
  match disposable w instance with
  | None => Err (TypeError "Cannot use 'in' operator") w
  | Some true => Ok instance (register callback instance w)
  | Some false => Ok instance w
  end.

(** Calling a [ServiceFactory]: [factory(collection, cb)]. *)
Definition invoke (f : ServiceFactory) (collection cb : Ctx) (w : World)
  : Res Value :=
  match f with
  | FactoryFun anyService =>
      try_catch
        (bind (inject collection cb anyService [VCtx collection] w) (λ v w,
         registerIfDisposable v cb w))
        (λ w,
         bind (call collection cb anyService [VCtx collection] w) (λ v w,
         registerIfDisposable v cb w))
  | FactoryArr base service =>
      bind (inject collection cb base service w) (λ v w,
      registerIfDisposable v cb w)
  | FactoryVal service => registerIfDisposable service cb w
  | FactoryCustom body => rec_run collection cb body w
  end.

(** [this.#services.get(serviceConstructor)] of the host: the binding
    object (its reference and its current fields). *)
Definition getTag (w : World) (serviceConstructor : Key)
  : option (nat * TaggedService) :=
  b ← services w !! serviceConstructor;
  t ← bindings w !! b;
  Some (b, t).

Definition getFromTaggedService (services : Ctx) (tagged : nat * TaggedService)
  (registerDisposable : Ctx) (w : World) : Res Value :=
  match tagged.2 with
  | Transient f => invoke f services registerDisposable w
  | Singleton f store =>
      if truthy store then Ok store w
      else
        bind (invoke f services registerDisposable w) (λ v w,
        Ok v (set_store tagged.1 v w))
  | Scoped _ => Err (TypeError "Cannot create service outside of scope") w
  end.

(** [ServiceCollection.get], on a collection whose own registry is
    [self]'s. *)
Definition collection_get (self : Ctx) (serviceConstructor : Key) (w : World)
  : Res Value :=
  match getTag w serviceConstructor with
  | None => Ok VUndefined w
  | Some tag => getFromTaggedService self tag self w
  end.

(** [ServiceHost.get] *)
Definition host_get (serviceConstructor : Key) (w : World) : Res Value :=
  match serviceConstructor with
  | KServiceCollection => Ok (VCtx CHost) w
  | KServiceHost => Ok (VCtx CHost) w
  | KServiceContainer => Ok (VCtx CHost) w
  | _ => collection_get CHost serviceConstructor w
  end.

(** [ServiceScope.get]; [#base] is the host. *)
Definition scope_get (s : nat) (serviceConstructor : Key) (w : World)
  : Res Value :=
  match serviceConstructor with
  | KServiceCollection => Ok (VCtx (CScope s)) w
  | _ =>
      match getTag w serviceConstructor with
      | None => host_get serviceConstructor w
      | Some (b, Scoped f) =>
          let value := scope_cache w s b in
          if truthy value then Ok value w
          else
            bind (invoke f (CScope s) (CScope s) w) (λ newValue w,
            Ok newValue (set_cache s b newValue w))
      | Some tagged => getFromTaggedService CHost tagged CHost w
      end
  end.

(** [collection.get(key)], by the class of [collection]. *)
Definition get_open (collection : Ctx) (serviceConstructor : Key) (w : World)
  : Res Value :=
  match collection with
  | CHost => host_get serviceConstructor w
  | CScope s => scope_get s serviceConstructor w
  end.

(** One step of user code running inside [self] with the registration
    callback [cb]. *)
Definition run_open (self cb : Ctx) (c : Code) (w : World) : Res Value :=
  match c with
  | Ret v => Ok v w
  | Throw e => Err e w
  | Get k cont => bind (rec_get self k w) (λ v w, rec_run self cb (cont v) w)
  | Inject cls args cont =>
      bind (inject self cb cls args w) (λ v w, rec_run self cb (cont v) w)
  | Register v cont => rec_run self cb cont (register cb v w)
  | New c cont =>
      let '(o, w) := alloc c w in rec_run self cb (cont (VObj o)) w
  | TryCatch body handler cont =>
      bind (try_catch (rec_run self cb body w) (λ w, rec_run self cb handler w))
           (λ v w, rec_run self cb (cont v) w)
  end.

End Open.

Fixpoint get (fuel : nat) (collection : Ctx) (k : Key) (w : World) : Res Value :=
  match fuel with
  | 0 => Timeout
  | S fuel => get_open (get fuel) (run fuel) collection k w
  end
with run (fuel : nat) (self cb : Ctx) (c : Code) (w : World) : Res Value :=
  match fuel with
  | 0 => Timeout
  | S fuel => run_open (get fuel) (run fuel) self cb c w
  end.

(** [ServiceCollection.inject] called from outside, on [collection]; the
    constructor has no registration callback of a factory call to hand, so
    it runs with the collection's own. *)
Definition inject_top (fuel : nat) (collection : Ctx) (service : Key)
  (props : list Value) (w : World) : Res Value :=
  inject (get fuel) (run fuel) collection collection service props w.

End Resolution.

(** ** Registration *)

(** [ServiceHost.#createServiceFactory] *)
Definition createServiceFactory (base : Key) (service : CompatibleService)
  : ServiceFactory :=
  match service with
  | ServiceFun f => FactoryFun f
  | ServiceArr args => FactoryArr base args
  | ServiceVal v => FactoryVal v
  end.

(** [this.#services.set(base, tagged)] with a new binding object *)
Definition add_binding (base : Key) (tagged : TaggedService) (w : World) : World :=
  set_services (<[base := length (bindings w)]> (services w))
    (set_bindings (bindings w ++ [tagged]) w).

Definition addSingleton (base : Key) (service : CompatibleService) (w : World) : World :=
  add_binding base (Singleton (createServiceFactory base service) VUndefined) w.

Definition addScoped (base : Key) (service : CompatibleService) (w : World) : World :=
  add_binding base (Scoped (createServiceFactory base service)) w.

Definition addTransient (base : Key) (service : CompatibleService) (w : World) : World :=
  add_binding base (Transient (createServiceFactory base service)) w.

(** [createScope]: [new ServiceScope(this)] *)
Definition createScope (w : World) : nat * World :=
  (length (scopes w), set_scopes (scopes w ++ [mkScope ∅ []]) w).

(** ** The first revision of resolution

    The file holds an earlier revision of the container as well.  Its
    [DisposableRegistry], [getFromTaggedService], [ServiceCollection.get]
    and registration methods read as the later ones; what differs is
    [ServiceScope.get], which answers [undefined] for a key without binding,
    resolves no key to the scope itself and hands every binding, whatever
    its tag, the scope and the scope's registration callback, and
    [ServiceHost], which has no [get] of its own.  The call
    [tagged.factory(collection, cb)] is a parameter of this part. *)
Module Revision1.
Section Factory.

Variable factory_call : ServiceFactory → Ctx → Ctx → World → Res Value.

Definition getFromTaggedService (services : Ctx) (tagged : nat * TaggedService)
  (registerDisposable : Ctx) (w : World) : Res Value :=
  match tagged.2 with
  | Transient f => factory_call f services registerDisposable w
  | Singleton f store =>
      if truthy store then Ok store w
      else
        bind (factory_call f services registerDisposable w) (λ v w,
        Ok v (set_store tagged.1 v w))
  | Scoped _ => Err (TypeError "Cannot create service outside of scope") w
  end.

(** [ServiceCollection.get], which [ServiceHost] inherits. *)
Definition collection_get (self : Ctx) (serviceConstructor : Key) (w : World)
  : Res Value :=
  match getTag w serviceConstructor with
  | None => Ok VUndefined w
  | Some tag => getFromTaggedService self tag self w
  end.

(** [ServiceScope.get]; [#base] is the host. *)
Definition scope_get (s : nat) (serviceConstructor : Key) (w : World)
  : Res Value :=
  match getTag w serviceConstructor with
  | None => Ok VUndefined w
  | Some (b, Scoped f) =>
      let value := scope_cache w s b in
      if truthy value then Ok value w
      else
        bind (factory_call f (CScope s) (CScope s) w) (λ newValue w,
        Ok newValue (set_cache s b newValue w))
  | Some tagged => getFromTaggedService (CScope s) tagged (CScope s) w
  end.

(** [collection.get(key)], by the class of [collection]. *)
Definition get (collection : Ctx) (serviceConstructor : Key) (w : World)
  : Res Value :=
  match collection with
  | CHost => collection_get CHost serviceConstructor w
  | CScope s => scope_get s serviceConstructor w
  end.

End Factory.
End Revision1.

(** ** Vocabulary of the properties *)

(** The three classes that [get] answers with the container itself. *)
Definition self_key (k : Key) : bool :=
  match k with
  | KServiceCollection | KServiceContainer | KServiceHost => true
  | KClass _ => false
  end.

(** [R] relates the state before a run to the state it ends in. *)
Definition frames {A} (R : World → World → Prop) (w : World) (r : Res A) : Prop :=
  ∀ w', final r = Some w' → R w w'.

(** The tag and the factory of a binding object: all of it but the [store]. *)
Definition shape (t : TaggedService) : Tag * ServiceFactory := (tag t, factory t).

(** The binding table and the immutable part of every binding object. *)
Definition same_bindings (w w' : World) : Prop :=
  services w' = services w ∧ shape <$> bindings w' = shape <$> bindings w.

Definition everywhere (c : Ctx) : Prop := True.

(** The heap only grows. *)
Definition heap_grows (w w' : World) : Prop := length (heap w) ≤ length (heap w').

(** A run inside the host touches no scope. *)
Definition same_scopes (w w' : World) : Prop := scopes w' = scopes w.

Definition host_only (c : Ctx) : Prop := c = CHost.

(** A run inside scope [a] touches no other scope. *)
Definition other_scopes (a : nat) (w w' : World) : Prop :=
  ∀ s, s ≠ a → scopes w' !! s = scopes w !! s.

Definition host_or (a : nat) (c : Ctx) : Prop := c = CHost ∨ c = CScope a.

(** What is already resolved stays resolved: the binding table and the
    binding objects' tags and factories, every truthy singleton slot and
    every truthy entry of a scope's cache. *)
Definition kept (w w' : World) : Prop :=
  same_bindings w w'
  ∧ (∀ b f v, bindings w !! b = Some (Singleton f v) → truthy v = true →
              bindings w' !! b = Some (Singleton f v))
  ∧ (∀ s b, truthy (scope_cache w s b) = true →
            scope_cache w' s b = scope_cache w s b).

(** [used classes w w']: the container went from [w] to [w'] by being used
    (resolutions and injections on any context, new scopes, teardowns),
    with no registration in between. *)
Inductive used (classes : Key → Callable) : World → World → Prop :=
| used_refl w : used classes w w
| used_get w w1 w2 fuel c k :
    final (get classes fuel c k w) = Some w1 →
    used classes w1 w2 → used classes w w2
| used_inject w w1 w2 fuel c service props :
    final (inject_top classes fuel c service props w) = Some w1 →
    used classes w1 w2 → used classes w w2
| used_createScope w w2 :
    used classes (createScope w).2 w2 → used classes w w2
| used_asyncDispose w w1 w2 fuel c :
    final (asyncDispose fuel c w) = Some w1 →
    used classes w1 w2 → used classes w w2.

(** A factory that builds a new object on every call: what it returns was
    allocated during the call. *)
Definition fresh_per_call (classes : Key → Callable) (f : ServiceFactory) : Prop :=
  ∀ fuel self cb w v w',
    invoke classes (get classes fuel) (run classes fuel) f self cb w = Ok v w' →
    ∃ o, v = VObj o ∧ length (heap w) ≤ o < length (heap w').

(** A factory whose calls all return, given enough fuel. *)
Definition factory_returns (classes : Key → Callable) (f : ServiceFactory) : Prop :=
  ∀ self cb w, ∃ fuel v w',
    invoke classes (get classes fuel) (run classes fuel) f self cb w = Ok v w'.

(** The factories [ServiceHost] synthesises. *)
Definition synthesized (f : ServiceFactory) : bool :=
  match f with
  | FactoryCustom _ => false
  | _ => true
  end.

(** The release methods teardown calls on a heap object, in order. *)
Definition releases_of (w : World) (item : Value) : list (Value * ReleaseKind) :=
  match item with
  | VObj o =>
      match obj_caps <$> heap w !! o with
      | Some c =>
          match asyncDispose_method c with
          | Some _ => [(item, AsyncRelease)]
          | None => []
          end
          ++ match dispose_method c with
             | Some _ => [(item, SyncRelease)]
             | None => []
             end
      | None => []
      end
  | _ => []
  end.

(** No release method of [c] raises. *)
Definition quiet (c : Caps) : bool :=
  match asyncDispose_method c, dispose_method c with
  | Some (Raises _), _ | _, Some (Raises _) => false
  | _, _ => true
  end.

(** A registered item that is a heap object whose releases all complete. *)
Definition releases_quietly (w : World) (item : Value) : bool :=
  match item with
  | VObj o =>
      match heap w !! o with
      | Some ob => quiet (obj_caps ob)
      | None => true
      end
  | _ => false
  end.

(** The entry of scope [s]'s cache under the binding object [b], if any. *)
Definition cache_entry (w : World) (s b : nat) : option Value :=
  scopes w !! s ≫= λ sc, scope_services sc !! b.

(** Nothing dangles: a bound key and a cache entry name a binding object
    that exists. *)
Definition well_formed (w : World) : Prop :=
  (∀ k b, services w !! k = Some b → b < length (bindings w))
  ∧ (∀ s b, is_Some (cache_entry w s b) → b < length (bindings w)).

(** What a [ServiceHost] can hold: every factory is one it synthesised,
    every singleton slot is empty or holds an object, every cache entry is
    an object. *)
Definition host_built (w : World) : Prop :=
  (∀ b t, bindings w !! b = Some t → synthesized (factory t) = true)
  ∧ (∀ b f v, bindings w !! b = Some (Singleton f v) →
              v = VUndefined ∨ is_object v = true)
  ∧ (∀ s b v, cache_entry w s b = Some v → is_object v = true).

(** The states of a [ServiceHost]: from a new host, by registrations and
    use. *)
Inductive reachable (classes : Key → Callable) : World → Prop :=
| reachable_empty : reachable classes empty_world
| reachable_addSingleton w base service :
    reachable classes w → reachable classes (addSingleton base service w)
| reachable_addScoped w base service :
    reachable classes w → reachable classes (addScoped base service w)
| reachable_addTransient w base service :
    reachable classes w → reachable classes (addTransient base service w)
| reachable_used w w' :
    reachable classes w → used classes w w' → reachable classes w'.

(** From [w] to [w'] no binding changed its tag or factory and every new
    cache entry is keyed by a binding object of [w]. *)
Definition caches_grow_validly (w w' : World) : Prop :=
  same_bindings w w'
  ∧ ∀ s b, is_Some (cache_entry w' s b) →
           is_Some (cache_entry w s b) ∨ b < length (bindings w).

(** The first release method of [c] that raises, if one does: the error,
    and the methods called up to and including it. *)
Definition first_failure (c : Caps) : option (Error * list ReleaseKind) :=
  match asyncDispose_method c, dispose_method c with
  | Some (Raises e), _ => Some (e, [AsyncRelease])
  | Some Completes, Some (Raises e) => Some (e, [AsyncRelease; SyncRelease])
  | None, Some (Raises e) => Some (e, [SyncRelease])
  | _, _ => None
  end.

(** The number of collections whose registry is not empty. *)
Definition pending (w : World) : nat :=
  match host_dispose w with [] => 0 | _ => 1 end
  + sum_list_with (λ sc, match scope_dispose sc with [] => 0 | _ => 1 end)
      (scopes w).

(** A registered item that is a heap object (not a collection). *)
Definition heap_object (item : Value) : bool :=
  match item with
  | VObj _ => true
  | _ => false
  end.

(** What a run that only adds leaves behind: the release log as it was,
    every registry extended at its end, the same number of scopes, and a
    heap that kept every object's release methods and grew at its end. *)
Definition only_adds (w w' : World) : Prop :=
  released w' = released w
  ∧ (∀ r, registry w r `prefix_of` registry w' r)
  ∧ length (scopes w') = length (scopes w)
  ∧ (obj_caps <$> heap w) `prefix_of` (obj_caps <$> heap w').

(** ** A sample program

    [Logger] is a class whose instances have both release methods;
    [newObject] is the arrow function [c => ({})] and [zero] is [c => 0];
    [Repo] is a class with an injected [logger] property whose constructor
    throws; [RequestCtx] is a plain class; [Service] is a class with an
    injected [logger] property; the instances of [Connection] have the
    asynchronous release method only and those of [FileHandle] the
    synchronous one only; [itself] is the arrow function [c => c]. *)
Definition Logger : Key := KClass 0.
Definition newObject : Key := KClass 1.
Definition zero : Key := KClass 2.
Definition Repo : Key := KClass 3.
Definition RequestCtx : Key := KClass 4.
Definition Service : Key := KClass 5.
Definition Connection : Key := KClass 6.
Definition FileHandle : Key := KClass 7.
Definition itself : Key := KClass 8.

Definition sample_classes (k : Key) : Callable :=
  match k with
  | KClass 0 =>
      mkCallable (Some []) (Some (λ _ _, Ret VUndefined)) None
        (mkCaps (Some Completes) (Some Completes))
  | KClass 1 => mkCallable None None (Some (λ _, New no_caps Ret)) no_caps
  | KClass 2 => mkCallable None None (Some (λ _, Ret (VNum 0))) no_caps
  | KClass 3 =>
      mkCallable (Some [("logger"%string, KClass 0)])
        (Some (λ _ _, Throw (Thrown (VStr "boom")))) None no_caps
  | KClass 4 => mkCallable (Some []) (Some (λ _ _, Ret VUndefined)) None no_caps
  | KClass 5 =>
      mkCallable (Some [("logger"%string, KClass 0)])
        (Some (λ _ _, Ret VUndefined)) None no_caps
  | KClass 6 =>
      mkCallable (Some []) (Some (λ _ _, Ret VUndefined)) None
        (mkCaps (Some Completes) None)
  | KClass 7 =>
      mkCallable (Some []) (Some (λ _ _, Ret VUndefined)) None
        (mkCaps None (Some Completes))
  | KClass 8 =>
      mkCallable None None (Some (λ args, Ret (default VUndefined (head args))))
        no_caps
  | _ => mkCallable None None None no_caps
  end.

(** The state a run ended in ([w0] when it did not end). *)
Definition state_after {A} (w0 : World) (r : Res A) : World :=
  default w0 (final r).

(** A host on which a [Connection], a [FileHandle] and a [Logger] were
    resolved, in that order, each bound as transient to its class. *)
Definition three_disposables : World :=
  let w := addTransient Connection (ServiceFun Connection) empty_world in
  let w := addTransient FileHandle (ServiceFun FileHandle) w in
  let w := addTransient Logger (ServiceFun Logger) w in
  let w := state_after w (get sample_classes 5 CHost Connection w) in
  let w := state_after w (get sample_classes 5 CHost FileHandle w) in
  state_after w (get sample_classes 5 CHost Logger w).

(** [Flaky] is a class whose instances have both release methods, the
    synchronous one raising; the other classes are those of
    [sample_classes]. *)
Definition Flaky : Key := KClass 9.

Definition flaky_classes (k : Key) : Callable :=
  match k with
  | KClass 9 =>
      mkCallable (Some []) (Some (λ _ _, Ret VUndefined)) None
        (mkCaps (Some Completes) (Some (Raises (Thrown (VStr "stuck")))))
  | _ => sample_classes k
  end.

(** A host on which a [Connection], a [Flaky] and a [Logger] were resolved,
    in that order, each bound as transient to its class. *)
Definition flaky_in_the_middle : World :=
  let w := addTransient Connection (ServiceFun Connection) empty_world in
  let w := addTransient Flaky (ServiceFun Flaky) w in
  let w := addTransient Logger (ServiceFun Logger) w in
  let w := state_after w (get flaky_classes 5 CHost Connection w) in
  let w := state_after w (get flaky_classes 5 CHost Flaky w) in
  state_after w (get flaky_classes 5 CHost Logger w).

(** A host and one scope that resolved each other: the host holds the scope
    in its registry and the scope holds the host. *)
Definition registered_in_each_other : World :=
  let w := (createScope empty_world).2 in
  register CHost (VCtx (CScope 0)) (register (CScope 0) (VCtx CHost) w).

(** A host with one scope: a [Logger], bound as transient, was resolved on
    the host and a [Connection], bound as scoped, in the scope. *)
Definition host_and_scope_disposables : World :=
  let w := addTransient Logger (ServiceFun Logger) empty_world in
  let w := addScoped Connection (ServiceFun Connection) w in
  let w := (createScope w).2 in
  let w := state_after w (get sample_classes 5 CHost Logger w) in
  state_after w (get sample_classes 5 (CScope 0) Connection w).

(** A host with one scope and a singleton binding of [Connection] to an
    object with an asynchronous release method that the program built
    itself. *)
Definition shared_connection : World :=
  let w := (alloc (mkCaps (Some Completes) None) empty_world).2 in
  (createScope (addSingleton Connection (ServiceVal (VObj 0)) w)).2.

(** [Wrapper] is a class whose constructor returns another object than the
    one [new] made for it; the other classes are those of
    [sample_classes]. *)
Definition Wrapper : Key := KClass 10.

Definition wrapper_classes (k : Key) : Callable :=
  match k with
  | KClass 10 =>
      mkCallable (Some []) (Some (λ _ _, New no_caps Ret)) None
        (mkCaps (Some Completes) None)
  | _ => sample_classes k
  end.

(** * Properties *)

Lemma getTag_Some w k b t :
  getTag w k = Some (b, t) ↔ services w !! k = Some b ∧ bindings w !! b = Some t.
Proof.
  unfold getTag. split.
  - destruct (services w !! k) as [b'|]; simpl; [|done].
    destruct (bindings w !! b') as [t'|] eqn:Hb; simpl; [|done].
    by intros [= -> ->].
  - intros [-> Hb]. simpl. by rewrite Hb.
Qed.

(** ** What a resolution leaves alone

    A relation between the state before and the state after that holds of
    every primitive update made on behalf of the contexts in [touched] holds
    of every run inside one of them, however it ends. *)

Section Frame.

Variable classes : Key → Callable.
Variable touched : Ctx → Prop.
Variable R : World → World → Prop.

Hypothesis touched_host : touched CHost.
Hypothesis R_refl : ∀ w, R w w.
Hypothesis R_trans : ∀ w1 w2 w3, R w1 w2 → R w2 w3 → R w1 w3.
Hypothesis R_alloc : ∀ c w, R w (alloc c w).2.
Hypothesis R_set_prop : ∀ t k v w, R w (set_prop t k v w).
Hypothesis R_set_store : ∀ b f store v w w1,
  bindings w !! b = Some (Singleton f store) → truthy store = false →
  (∃ rg rr self cb, invoke classes rg rr f self cb w = Ok v w1) →
  R w w1 → R w (set_store b v w1).
Hypothesis R_set_cache : ∀ s b f v w w1,
  touched (CScope s) →
  bindings w !! b = Some (Scoped f) → truthy (scope_cache w s b) = false →
  (∃ rg rr self cb, invoke classes rg rr f self cb w = Ok v w1) →
  R w w1 → R w (set_cache s b v w1).
Hypothesis R_register : ∀ r v w, touched r → R w (register r v w).

Lemma frames_Ok {A} (a : A) w : frames R w (Ok a w).
Proof using R_refl. intros w' [= <-]. apply R_refl. Qed.

Lemma frames_Err {A} e w : frames R w (@Err A e w).
Proof using R_refl. intros w' [= <-]. apply R_refl. Qed.

Lemma frames_step {A} w1 w2 (r : Res A) :
  R w1 w2 → frames R w2 r → frames R w1 r.
Proof using R_trans. intros H12 Hr w' Hw'. eapply R_trans; eauto. Qed.

Lemma frames_bind {A B} w (r : Res A) (k : A → World → Res B) :
  frames R w r →
  (∀ a w1, r = Ok a w1 → frames R w1 (k a w1)) →
  frames R w (bind r k).
Proof using R_trans.
  intros Hr Hk. destruct r as [a w1|e w1|]; simpl.
  - eapply frames_step; [by apply Hr|by apply Hk].
  - exact Hr.
  - by intros w' ?.
Qed.

Lemma frames_try_catch {A} w (r : Res A) (h : World → Res A) :
  frames R w r →
  (∀ e w1, r = Err e w1 → frames R w1 (h w1)) →
  frames R w (try_catch r h).
Proof using R_trans.
  intros Hr Hh. destruct r as [a w1|e w1|]; simpl; try exact Hr.
  eapply frames_step; [by apply Hr|by eapply Hh].
Qed.

Section OpenFrame.

Variable rec_get : Ctx → Key → World → Res Value.
Variable rec_run : Ctx → Ctx → Code → World → Res Value.

Hypothesis rec_get_frames :
  ∀ c k w, touched c → frames R w (rec_get c k w).
Hypothesis rec_run_frames :
  ∀ self cb c w, touched self → touched cb → frames R w (rec_run self cb c w).

Lemma construct_frames self cb service props w :
  touched self → touched cb →
  frames R w (construct classes rec_run self cb service props w).
Proof using R_refl R_trans R_alloc rec_run_frames.
  intros Hs Hc. unfold construct. destruct (ctor _) as [body|].
  - eapply frames_step; [apply (R_alloc (instance_caps (classes service)))|].
    simpl. apply frames_bind; [by apply rec_run_frames|].
    intros; apply frames_Ok.
  - apply frames_Err.
Qed.

Lemma call_frames self cb service props w :
  touched self → touched cb →
  frames R w (call classes rec_run self cb service props w).
Proof using R_refl rec_run_frames.
  intros Hs Hc. unfold call. destruct (fn _) as [body|].
  - by apply rec_run_frames.
  - apply frames_Err.
Qed.

Lemma inject_props_frames self value meta w :
  touched self → frames R w (inject_props rec_get self value meta w).
Proof using R_refl R_trans R_set_prop rec_get_frames.
  intros Hs. revert w. induction meta as [|[key dep] rest IH]; intros w; simpl.
  - apply frames_Ok.
  - apply frames_bind; [by apply rec_get_frames|].
    intros v w1 _. eapply frames_step; [apply R_set_prop|apply IH].
Qed.

Lemma inject_frames self cb service props w :
  touched self → touched cb →
  frames R w (inject classes rec_get rec_run self cb service props w).
Proof using R_refl R_trans R_alloc R_set_prop rec_get_frames rec_run_frames.
  intros Hs Hc. unfold inject. destruct (inject_metadata _) as [meta|].
  - apply frames_bind; [by apply construct_frames|].
    intros; by apply inject_props_frames.
  - apply frames_Err.
Qed.

Lemma registerIfDisposable_frames instance cb w :
  touched cb → frames R w (registerIfDisposable instance cb w).
Proof using R_refl R_register.
  intros Hc. unfold registerIfDisposable.
  destruct (disposable w instance) as [[]|].
  - intros w' [= <-]. by apply R_register.
  - apply frames_Ok.
  - apply frames_Err.
Qed.

Lemma invoke_frames f self cb w :
  touched self → touched cb →
  frames R w (invoke classes rec_get rec_run f self cb w).
Proof using R_refl R_trans R_alloc R_set_prop R_register
            rec_get_frames rec_run_frames.
  intros Hs Hc. destruct f as [g|base args|v|body]; simpl.
  - apply frames_try_catch.
    + apply frames_bind; [by apply inject_frames|].
      intros; by apply registerIfDisposable_frames.
    + intros e w1 _. apply frames_bind; [by apply call_frames|].
      intros; by apply registerIfDisposable_frames.
  - apply frames_bind; [by apply inject_frames|].
    intros; by apply registerIfDisposable_frames.
  - by apply registerIfDisposable_frames.
  - by apply rec_run_frames.
Qed.

Lemma getFromTaggedService_frames self tagged cb w :
  touched self → touched cb →
  bindings w !! tagged.1 = Some tagged.2 →
  frames R w (getFromTaggedService classes rec_get rec_run self tagged cb w).
Proof using R_refl R_trans R_alloc R_set_prop R_set_store R_register
            rec_get_frames rec_run_frames.
  intros Hs Hc Hb. unfold getFromTaggedService.
  destruct (tagged.2) as [f|f|f store].
  - apply frames_Err.
  - by apply invoke_frames.
  - destruct (truthy store) eqn:Hstore; [apply frames_Ok|].
    pose proof (invoke_frames f self cb w Hs Hc) as Hinv.
    destruct (invoke _ _ _ _ _ _ _) as [v w1|e w1|] eqn:Hrun; simpl; [|done..].
    intros w' [= <-]. eapply R_set_store; [done..|by eauto|]. by apply Hinv.
Qed.

Lemma collection_get_frames self k w :
  touched self →
  frames R w (collection_get classes rec_get rec_run self k w).
Proof using R_refl R_trans R_alloc R_set_prop R_set_store R_register
            rec_get_frames rec_run_frames.
  intros Hs. unfold collection_get.
  destruct (getTag w k) as [[b t]|] eqn:Hk.
  - apply getFromTaggedService_frames; try done. by apply getTag_Some in Hk as [_ ?].
  - apply frames_Ok.
Qed.

Lemma host_get_frames k w :
  frames R w (host_get classes rec_get rec_run k w).
Proof using touched_host R_refl R_trans R_alloc R_set_prop R_set_store R_register
            rec_get_frames rec_run_frames.
  destruct k; simpl; try apply frames_Ok.
  by apply collection_get_frames.
Qed.

Lemma scope_get_frames s k w :
  touched (CScope s) →
  frames R w (scope_get classes rec_get rec_run s k w).
Proof using touched_host R_refl R_trans R_alloc R_set_prop R_set_store
            R_set_cache R_register rec_get_frames rec_run_frames.
  intros Hs.
  assert (frames R w
    match getTag w k with
    | None => host_get classes rec_get rec_run k w
    | Some (b, Scoped f) =>
        let value := scope_cache w s b in
        if truthy value then Ok value w
        else
          bind (invoke classes rec_get rec_run f (CScope s) (CScope s) w)
            (λ newValue w, Ok newValue (set_cache s b newValue w))
    | Some tagged =>
        getFromTaggedService classes rec_get rec_run CHost tagged CHost w
    end) as H.
  { destruct (getTag w k) as [[b t]|] eqn:Hk; [|apply host_get_frames].
    apply getTag_Some in Hk as [_ Hb].
    destruct t as [f|f|f store]; simpl.
    - destruct (truthy _) eqn:Hcache; [apply frames_Ok|].
      pose proof (invoke_frames f (CScope s) (CScope s) w Hs Hs) as Hinv.
      destruct (invoke _ _ _ _ _ _ _) as [v w1|e w1|] eqn:Hrun; simpl; [|done..].
      intros w' [= <-]. eapply R_set_cache; [done..|by eauto|]. by apply Hinv.
    - by apply getFromTaggedService_frames.
    - by apply getFromTaggedService_frames. }
  destruct k; simpl; try exact H. apply frames_Ok.
Qed.

Lemma get_open_frames c k w :
  touched c → frames R w (get_open classes rec_get rec_run c k w).
Proof using touched_host R_refl R_trans R_alloc R_set_prop R_set_store
            R_set_cache R_register rec_get_frames rec_run_frames.
  intros Hc. destruct c as [|s]; simpl.
  - apply host_get_frames.
  - by apply scope_get_frames.
Qed.

Lemma run_open_frames self cb c w :
  touched self → touched cb →
  frames R w (run_open classes rec_get rec_run self cb c w).
Proof using R_refl R_trans R_alloc R_set_prop R_register
            rec_get_frames rec_run_frames.
  intros Hs Hc. destruct c; simpl.
  - apply frames_Ok.
  - apply frames_Err.
  - apply frames_bind; [by apply rec_get_frames|].
    intros; by apply rec_run_frames.
  - apply frames_bind; [by apply inject_frames|].
    intros; by apply rec_run_frames.
  - eapply frames_step; [by apply R_register|by apply rec_run_frames].
  - eapply frames_step; [apply (R_alloc c)|by apply rec_run_frames].
  - apply frames_bind.
    + apply frames_try_catch; [by apply rec_run_frames|].
      intros; by apply rec_run_frames.
    + intros; by apply rec_run_frames.
Qed.

End OpenFrame.

Lemma get_run_frames fuel :
  (∀ c k w, touched c → frames R w (get classes fuel c k w)) ∧
  (∀ self cb c w, touched self → touched cb →
     frames R w (run classes fuel self cb c w)).
Proof using touched_host R_refl R_trans R_alloc R_set_prop R_set_store
            R_set_cache R_register.
  induction fuel as [|fuel [IHg IHr]]; simpl.
  - split; intros; by intros w' ?.
  - split; intros.
    + by apply get_open_frames.
    + by apply run_open_frames.
Qed.

Lemma get_frames fuel c k w :
  touched c → frames R w (get classes fuel c k w).
Proof using touched_host R_refl R_trans R_alloc R_set_prop R_set_store
            R_set_cache R_register.
  apply get_run_frames.
Qed.

Lemma invoke_get_frames fuel f self cb w :
  touched self → touched cb →
  frames R w (invoke classes (get classes fuel) (run classes fuel) f self cb w).
Proof using touched_host R_refl R_trans R_alloc R_set_prop R_set_store
            R_set_cache R_register.
  intros. apply invoke_frames; try done; apply get_run_frames.
Qed.

End Frame.

(** *** Instances of the frame *)

Lemma shape_set_store b v w :
  shape <$> bindings (set_store b v w) = shape <$> bindings w.
Proof.
  simpl. rewrite (list_fmap_alter shape _ id).
  - by apply list_alter_id.
  - apply Forall_forall. intros t _. by destruct t.
Qed.

Lemma get_same_bindings classes fuel c k w w' :
  final (get classes fuel c k w) = Some w' → same_bindings w w'.
Proof.
  apply (get_frames classes everywhere same_bindings); try done.
  - intros w1 w2 w3 [H1 H2] [H3 H4]. split; congruence.
  - intros t key v w0. by destruct t.
  - intros b f0 store v w0 w1 _ _ _ [H1 H2]. split; [done|].
    by rewrite shape_set_store.
  - intros r v w0 _. by destruct r.
Qed.

Lemma invoke_same_bindings classes fuel f self cb w w' :
  final (invoke classes (get classes fuel) (run classes fuel) f self cb w) = Some w' →
  same_bindings w w'.
Proof.
  apply (invoke_get_frames classes everywhere same_bindings); try done.
  - intros w1 w2 w3 [H1 H2] [H3 H4]. split; congruence.
  - intros t key v w0. by destruct t.
  - intros b f0 store v w0 w1 _ _ _ [H1 H2]. split; [done|].
    by rewrite shape_set_store.
  - intros r v w0 _. by destruct r.
Qed.

Ltac heap_grows_frame :=
  unfold heap_grows;
  lazymatch goal with
  | |- everywhere _ => exact I
  | |- ∀ w, length (heap w) ≤ length (heap w) => done
  | |- ∀ w1 w2 w3, _ ≤ _ → _ => intros; lia
  | |- ∀ c w, _ ≤ length (heap (alloc _ _).2) =>
      intros; simpl; rewrite length_app; lia
  | |- ∀ t k v w, _ ≤ length (heap (set_prop _ _ _ _)) =>
      intros [] ???; simpl; rewrite ?length_alter; lia
  | |- ∀ b f store v w w1, _ → _ → _ → _ → _ ≤ length (heap (set_store _ _ _)) =>
      let Hle := fresh in intros ?????? _ _ _ Hle; exact Hle
  | |- ∀ s b f v w w1,
         everywhere _ → _ → _ → _ → _ → _ ≤ length (heap (set_cache _ _ _ _)) =>
      let Hle := fresh in intros ?????? _ _ _ _ Hle; exact Hle
  | |- ∀ r v w, everywhere _ → _ ≤ length (heap (register _ _ _)) =>
      intros [] ???; done
  end.

Lemma get_heap_grows classes fuel c k w :
  frames heap_grows w (get classes fuel c k w).
Proof. apply (get_frames classes everywhere heap_grows); heap_grows_frame. Qed.

Lemma invoke_heap_grows classes fuel f self cb w w' :
  final (invoke classes (get classes fuel) (run classes fuel) f self cb w) = Some w' →
  heap_grows w w'.
Proof.
  apply (invoke_get_frames classes everywhere heap_grows); heap_grows_frame.
Qed.

Lemma inject_props_heap_grows classes fuel self value meta w :
  frames heap_grows w (inject_props (get classes fuel) self value meta w).
Proof.
  apply (inject_props_frames everywhere heap_grows); try heap_grows_frame.
  intros. apply get_heap_grows.
Qed.

Ltac host_only_frame :=
  lazymatch goal with
  | |- host_only CHost => reflexivity
  | |- ∀ w, same_scopes w w => done
  | |- ∀ w1 w2 w3, same_scopes _ _ → _ => unfold same_scopes; congruence
  | |- ∀ c w, same_scopes _ (alloc _ _).2 => done
  | |- ∀ t k v w, same_scopes _ (set_prop _ _ _ _) => intros [] ???; done
  | |- ∀ b f store v w w1, _ → _ → _ → _ → same_scopes _ (set_store _ _ _) =>
      let Hsame := fresh in intros ?????? _ _ _ Hsame; exact Hsame
  | |- ∀ s b f v w w1, host_only (CScope _) → _ => intros ?????? [=]
  | |- ∀ r v w, host_only _ → same_scopes _ (register _ _ _) => intros ??? ->; done
  end.

Section HostOnly.
Variable classes : Key → Callable.

Lemma getFromTaggedService_host_same_scopes fuel tagged w w' :
  bindings w !! tagged.1 = Some tagged.2 →
  final (getFromTaggedService classes (get classes fuel) (run classes fuel)
           CHost tagged CHost w) = Some w' →
  scopes w' = scopes w.
Proof.
  intros Hb.
  apply (getFromTaggedService_frames classes host_only same_scopes);
    try host_only_frame; try exact Hb.
  - intros c k w0 Hc.
    apply (get_frames classes host_only same_scopes); try host_only_frame; done.
  - intros self cb c w0 Hs Hc.
    apply (get_run_frames classes host_only same_scopes);
      try host_only_frame; done.
Qed.

Lemma host_get_same_scopes fuel k w w' :
  final (get classes fuel CHost k w) = Some w' → scopes w' = scopes w.
Proof.
  apply (get_frames classes host_only same_scopes); host_only_frame.
Qed.

Lemma host_run_same_scopes fuel c w :
  frames same_scopes w (run classes fuel CHost CHost c w).
Proof.
  apply (get_run_frames classes host_only same_scopes);
    try host_only_frame; done.
Qed.
End HostOnly.

Lemma invoke_other_scopes classes fuel f a w w' :
  final (invoke classes (get classes fuel) (run classes fuel) f
           (CScope a) (CScope a) w) = Some w' →
  other_scopes a w w'.
Proof.
  apply (invoke_get_frames classes (host_or a) (other_scopes a));
    try done; try (by right); try (by left).
  - intros w1 w2 w3 H1 H2 s Hs. rewrite H2, H1; done.
  - intros t key v w0. by destruct t.
  - intros s b f0 v w0 w1 Hs _ _ _ H s' Hs'.
    destruct Hs as [Hs|Hs]; [discriminate|].
    injection Hs as ->. simpl. rewrite list_lookup_alter_ne by done. by apply H.
  - intros r v w0 [-> | ->]; [done|].
    intros s' Hs'. simpl. by rewrite list_lookup_alter_ne.
Qed.

(** *** Teardown frames *)

Section TeardownFrame.
Variable R : World → World → Prop.
Hypothesis R_refl : ∀ w, R w w.
Hypothesis R_trans : ∀ w1 w2 w3, R w1 w2 → R w2 w3 → R w1 w3.
Hypothesis R_set_released : ∀ l w, R w (set_released l w).
Hypothesis R_swap : ∀ c w, R w (set_registry c [] w).

Lemma release_async_frames rec item w :
  (∀ c w0, frames R w0 (rec c w0)) → frames R w (release_async rec item w).
Proof using R_refl R_trans R_set_released.
  intros Hrec. unfold release_async. destruct item; try apply frames_Err; try done.
  - destruct (asyncDispose_method ∘ obj_caps <$> heap w !! o) as [[[]|]|];
      intros w' [= <-]; done.
  - eapply frames_step; [done|apply R_set_released|apply Hrec].
Qed.

Lemma release_sync_frames item w : frames R w (release_sync item w).
Proof using R_refl R_set_released.
  unfold release_sync. destruct item; try apply frames_Err; try done.
  - destruct (dispose_method ∘ obj_caps <$> heap w !! o) as [[[]|]|];
      intros w' [= <-]; done.
  - by apply frames_Ok.
Qed.

Lemma dispose_loop_frames rec items w :
  (∀ c w0, frames R w0 (rec c w0)) → frames R w (dispose_loop rec items w).
Proof using R_refl R_trans R_set_released.
  intros Hrec. revert w. induction items as [|item rest IH]; intros w; simpl.
  - by apply frames_Ok.
  - apply frames_bind; [done|by apply release_async_frames|].
    intros _ w1 _. apply frames_bind; [done|apply release_sync_frames|].
    intros _ w2 _. apply IH.
Qed.

Lemma asyncDispose_frames fuel c w : frames R w (asyncDispose fuel c w).
Proof using R_refl R_trans R_set_released R_swap.
  revert c w. induction fuel as [|fuel IH]; intros c w; [by intros w' ?|].
  simpl. eapply frames_step; [done|apply R_swap|]. by apply dispose_loop_frames.
Qed.
End TeardownFrame.

(** *** Use keeps what is resolved *)

Lemma scope_cache_set_registry r d w s b :
  scope_cache (set_registry r d w) s b = scope_cache w s b.
Proof.
  destruct r as [|s']; [done|]. unfold scope_cache. simpl.
  destruct (decide (s' = s)) as [->|Hne].
  - rewrite list_lookup_alter_eq. by destruct (scopes w !! s).
  - by rewrite list_lookup_alter_ne.
Qed.

Lemma scope_cache_set_cache_ne s b v w s' b' :
  (s, b) ≠ (s', b') →
  scope_cache (set_cache s b v w) s' b' = scope_cache w s' b'.
Proof.
  intros Hne. unfold scope_cache. simpl.
  destruct (decide (s = s')) as [->|Hs].
  - rewrite list_lookup_alter_eq. destruct (scopes w !! s') as [sc|]; [|done].
    simpl. rewrite lookup_insert_ne; [done|congruence].
  - by rewrite list_lookup_alter_ne.
Qed.

Lemma kept_refl w : kept w w.
Proof. by repeat split. Qed.

Lemma kept_same w w' :
  services w' = services w → bindings w' = bindings w →
  (∀ s b, scope_cache w' s b = scope_cache w s b) →
  kept w w'.
Proof.
  intros Hs Hb Hc. split; [|split].
  - split; [done|by rewrite Hb].
  - intros b f v H _. by rewrite Hb.
  - intros s b _. apply Hc.
Qed.

Lemma kept_trans w1 w2 w3 : kept w1 w2 → kept w2 w3 → kept w1 w3.
Proof.
  intros ([Hs1 Hb1] & Hst1 & Hc1) ([Hs2 Hb2] & Hst2 & Hc2). repeat split.
  - congruence.
  - congruence.
  - intros b f v Hb Hv. eauto.
  - intros s b Hv. rewrite Hc2; rewrite Hc1; done.
Qed.

Lemma kept_alloc c w : kept w (alloc c w).2.
Proof. by apply kept_same. Qed.

Lemma kept_set_prop t k v w : kept w (set_prop t k v w).
Proof. destruct t; by apply kept_same. Qed.

Lemma kept_register r v w : everywhere r → kept w (register r v w).
Proof.
  intros _. apply kept_same; [by destruct r..|].
  intros. apply scope_cache_set_registry.
Qed.

Lemma kept_set_store classes b f store v w w1 :
  bindings w !! b = Some (Singleton f store) → truthy store = false →
  (∃ rg rr self cb, invoke classes rg rr f self cb w = Ok v w1) →
  kept w w1 → kept w (set_store b v w1).
Proof.
  intros Hb Hf _ ([Hs Hsh] & Hst & Hc). split; [|split].
  - split; [done|]. by rewrite shape_set_store.
  - intros b' f' v' Hb' Hv'. simpl.
    rewrite list_lookup_alter_ne by (intros ->; congruence). by apply Hst.
  - done.
Qed.

Lemma kept_set_cache classes s b f v w w1 :
  everywhere (CScope s) →
  bindings w !! b = Some (Scoped f) → truthy (scope_cache w s b) = false →
  (∃ rg rr self cb, invoke classes rg rr f self cb w = Ok v w1) →
  kept w w1 → kept w (set_cache s b v w1).
Proof.
  intros _ _ Hf _ (Hsame & Hst & Hc). split; [|split]; [done..|].
  intros s' b' Hv'.
  rewrite scope_cache_set_cache_ne by (intros [= -> ->]; congruence).
  by apply Hc.
Qed.

Ltac kept_frame :=
  first [ exact I | exact kept_refl | exact kept_trans | exact kept_alloc
        | exact kept_set_prop | exact kept_register | exact (kept_set_store _)
        | exact (kept_set_cache _) ].

Lemma get_kept classes fuel c k w : frames kept w (get classes fuel c k w).
Proof. apply (get_frames classes everywhere kept); kept_frame. Qed.

Lemma inject_top_kept classes fuel c service props w :
  frames kept w (inject_top classes fuel c service props w).
Proof.
  apply (inject_frames classes everywhere kept); try kept_frame.
  - intros. apply get_kept.
  - intros. apply (get_run_frames classes everywhere kept); kept_frame.
Qed.

Lemma asyncDispose_kept fuel c w : frames kept w (asyncDispose fuel c w).
Proof.
  apply asyncDispose_frames.
  - exact kept_refl.
  - exact kept_trans.
  - intros. by apply kept_same.
  - intros r w0. apply kept_same; [by destruct r..|].
    intros. apply scope_cache_set_registry.
Qed.

Lemma createScope_kept w : kept w (createScope w).2.
Proof.
  repeat split; try done. intros s b Hv. unfold scope_cache in *. simpl.
  destruct (scopes w !! s) as [sc|] eqn:Hs; [|done].
  by rewrite (lookup_app_l_Some _ _ _ _ Hs).
Qed.

(** Using the container never unbinds a key, never replaces a factory and
    never overwrites a truthy singleton slot or scope cache entry. *)
Lemma used_kept classes w w' : used classes w w' → kept w w'.
Proof.
  induction 1 as [w|w w1 w2 fuel c k Hget _ IH|w w1 w2 fuel c cls args Hinj _ IH
                 |w w2 _ IH|w w1 w2 fuel c Hd _ IH].
  - apply kept_refl.
  - eapply kept_trans; [by apply (get_kept classes fuel c k)|done].
  - eapply kept_trans; [by apply (inject_top_kept classes fuel c cls args)|done].
  - eapply kept_trans; [apply createScope_kept|done].
  - eapply kept_trans; [by apply (asyncDispose_kept fuel c)|done].
Qed.

(** ** Self-resolution, unregistered keys, scoped keys on the root *)

(** C8: [get] on the host with the key [ServiceCollection],
    [ServiceContainer] or [ServiceHost] returns the host itself and leaves
    the state as it was, whatever the binding table holds. *)
Theorem host_get_self classes fuel w :
  get classes (S fuel) CHost KServiceCollection w = Ok (VCtx CHost) w
  ∧ get classes (S fuel) CHost KServiceContainer w = Ok (VCtx CHost) w
  ∧ get classes (S fuel) CHost KServiceHost w = Ok (VCtx CHost) w.
Proof. done. Qed.

Lemma getTag_unregistered w k : services w !! k = None → getTag w k = None.
Proof. intros H. unfold getTag. by rewrite H. Qed.

(** C3, as stated: a key that was never registered resolves to [undefined]
    on every context.  It fails at the keys that resolve to the container
    itself: on an empty host, [get(ServiceHost)] is the host. *)
Lemma get_unregistered_self_key :
  ¬ (∀ classes fuel c k w,
       services w !! k = None → get classes (S fuel) c k w = Ok VUndefined w).
Proof.
  intros H. by specialize (H sample_classes 0 CHost KServiceHost empty_world eq_refl).
Qed.

(** C3, amended: a key that was never registered and is none of the three
    self-resolving classes resolves to [undefined] on the host and on every
    scope; nothing is raised and the state is as it was. *)
Theorem get_unregistered classes fuel c k w :
  services w !! k = None →
  self_key k = false →
  get classes (S fuel) c k w = Ok VUndefined w.
Proof.
  intros Hk Hself. apply getTag_unregistered in Hk.
  destruct k; try discriminate.
  destruct c as [|s]; simpl; unfold collection_get; by rewrite Hk.
Qed.

Lemma get_unregistered_witness :
  (services (createScope empty_world).2 !! Logger = None
   ∧ self_key Logger = false)
  ∧ get sample_classes 1 (CScope 0) Logger (createScope empty_world).2
    = Ok VUndefined (createScope empty_world).2.
Proof.
  split; [by split|].
  apply (get_unregistered sample_classes 0 (CScope 0) Logger); reflexivity.
Defined.

(** C4, as stated: a key bound as scoped raises the scope-misuse error on
    the host.  It fails when the key is one of the self-resolving classes:
    after [addScoped(ServiceHost, null)], [get(ServiceHost)] is the host. *)
Lemma host_get_scoped_self_key :
  ¬ (∀ classes fuel k w b f,
       getTag w k = Some (b, Scoped f) →
       get classes (S fuel) CHost k w
       = Err (TypeError "Cannot create service outside of scope") w).
Proof.
  intros H.
  specialize (H sample_classes 0 KServiceHost
                (addScoped KServiceHost (ServiceVal VNull) empty_world)
                0 (FactoryVal VNull)).
  by specialize (H eq_refl).
Qed.

(** C4, amended: a key bound as scoped that is none of the three
    self-resolving classes raises the scope-misuse [TypeError] when it is
    resolved on the host; no factory runs and the state is as it was. *)
Theorem host_get_scoped classes fuel k w b f :
  getTag w k = Some (b, Scoped f) →
  self_key k = false →
  get classes (S fuel) CHost k w
  = Err (TypeError "Cannot create service outside of scope") w.
Proof.
  intros Hk Hself. destruct k; try discriminate.
  simpl. unfold collection_get. by rewrite Hk.
Qed.

Lemma host_get_scoped_witness :
  (getTag (addScoped RequestCtx (ServiceFun RequestCtx) empty_world) RequestCtx
   = Some (0, Scoped (FactoryFun RequestCtx))
   ∧ self_key RequestCtx = false)
  ∧ get sample_classes 1 CHost RequestCtx
      (addScoped RequestCtx (ServiceFun RequestCtx) empty_world)
    = Err (TypeError "Cannot create service outside of scope")
        (addScoped RequestCtx (ServiceFun RequestCtx) empty_world).
Proof.
  split; [by split|].
  apply (host_get_scoped sample_classes 0 RequestCtx _ 0 (FactoryFun RequestCtx));
    reflexivity.
Defined.

(** ** Singletons *)

(** A run keeps every binding object where it is, with its tag and factory. *)
Lemma getTag_same_bindings w w' k b t :
  same_bindings w w' →
  getTag w k = Some (b, t) →
  ∃ t', getTag w' k = Some (b, t') ∧ shape t' = shape t.
Proof.
  intros [Hs Hb] [Hk Ht]%getTag_Some.
  assert ((shape <$> bindings w') !! b = Some (shape t)) as H.
  { rewrite Hb, list_lookup_fmap, Ht. done. }
  rewrite list_lookup_fmap in H.
  destruct (bindings w' !! b) as [t'|] eqn:Ht'; [|done].
  exists t'. split; [|simpl in H; congruence].
  apply getTag_Some. by rewrite Hs.
Qed.

Lemma getTag_set_store w k b f store v :
  getTag w k = Some (b, Singleton f store) →
  getTag (set_store b v w) k = Some (b, Singleton f v).
Proof.
  intros [Hk Ht]%getTag_Some. apply getTag_Some. split; [done|].
  simpl. by rewrite list_lookup_alter_eq, Ht.
Qed.

(** After the factory of a singleton has run and its result is stored, the
    key is still bound to the same binding object, whose slot holds the
    result. *)
Lemma singleton_stored classes fuel w k b f store self cb v w1 :
  getTag w k = Some (b, Singleton f store) →
  invoke classes (get classes fuel) (run classes fuel) f self cb w = Ok v w1 →
  getTag (set_store b v w1) k = Some (b, Singleton f v).
Proof.
  intros Hk Hinv.
  assert (same_bindings w w1) as Hsame.
  { eapply invoke_same_bindings. by rewrite Hinv. }
  destruct (getTag_same_bindings _ _ _ _ _ Hsame Hk) as (t' & Hk' & Hshape).
  destruct t' as [?|?|f' store']; try discriminate.
  injection Hshape as ->. by eapply getTag_set_store.
Qed.

Lemma getTag_kept_singleton w w' k b f v :
  kept w w' → getTag w k = Some (b, Singleton f v) → truthy v = true →
  getTag w' k = Some (b, Singleton f v).
Proof.
  intros ([Hs _] & Hst & _) [Hk Hb]%getTag_Some Hv. apply getTag_Some.
  rewrite Hs. eauto.
Qed.

(** C1: the dispatch on a singleton returns the slot's value when it is
    truthy and otherwise calls the factory, stores what it returns in the slot
    and returns it.  So once a resolution on the host has returned a truthy
    value, every later resolution of the key on the host, whatever use was
    made of the container in between, returns the same value and changes
    nothing; and after a resolution that returned a falsy value the next one
    calls the factory again. *)
Theorem singleton_dispatch classes k b f store w :
  getTag w k = Some (b, Singleton f store) →
  (∀ fuel self cb,
     getFromTaggedService classes (get classes fuel) (run classes fuel)
       self (b, Singleton f store) cb w
     = if truthy store then Ok store w
       else bind (invoke classes (get classes fuel) (run classes fuel) f self cb w)
              (λ v w1, Ok v (set_store b v w1)))
  ∧ (∀ fuel self cb v w1,
       invoke classes (get classes fuel) (run classes fuel) f self cb w = Ok v w1 →
       getTag (set_store b v w1) k = Some (b, Singleton f v))
  ∧ (∀ fuel v w1,
       get classes fuel CHost k w = Ok v w1 →
       truthy v = true →
       ∀ w2, used classes w1 w2 →
       ∀ fuel', get classes (S fuel') CHost k w2 = Ok v w2)
  ∧ (∀ fuel v w',
       get classes fuel CHost k w = Ok v w' →
       truthy v = false →
       getTag w' k = Some (b, Singleton f v)
       ∧ ∀ fuel', get classes (S fuel') CHost k w'
           = bind (invoke classes (get classes fuel') (run classes fuel') f
                     CHost CHost w')
               (λ v' w1, Ok v' (set_store b v' w1))).
Proof.
  intros Hk. split.
  { reflexivity. }
  split.
  { intros. by eapply singleton_stored. }
  assert (∀ fuel v w', get classes fuel CHost k w = Ok v w' →
            self_key k = false →
            getTag w' k = Some (b, Singleton f v)) as Hafter.
  { intros [|fuel] v w' Hget Hself; [done|].
    destruct k; try discriminate. simpl in Hget.
    unfold collection_get in Hget. rewrite Hk in Hget.
    unfold getFromTaggedService in Hget. simpl in Hget.
    destruct (truthy store).
    - by injection Hget as <- <-.
    - destruct (invoke _ _ _ _ _ _ _) as [v1 w1| |] eqn:Hinv; try done.
      simpl in Hget. injection Hget as <- <-. by eapply singleton_stored. }
  split.
  - intros fuel v w1 Hget Hv w2 Hused%used_kept fuel'.
    destruct (self_key k) eqn:Hself.
    + destruct fuel; [done|].
      destruct k; try discriminate; simpl in *; by injection Hget as <- <-.
    + specialize (Hafter _ _ _ Hget eq_refl).
      apply (getTag_kept_singleton _ _ _ _ _ _ Hused) in Hafter; [|done].
      destruct k; try discriminate. simpl.
      unfold collection_get. rewrite Hafter.
      unfold getFromTaggedService. simpl. by rewrite Hv.
  - intros fuel v w' Hget Hv.
    destruct (self_key k) eqn:Hself.
    + destruct fuel; [done|].
      destruct k; try discriminate; simpl in *; injection Hget as <- <-; done.
    + specialize (Hafter _ _ _ Hget eq_refl). split; [done|].
      intros fuel'. destruct k; try discriminate. simpl.
      unfold collection_get. rewrite Hafter.
      unfold getFromTaggedService. simpl. by rewrite Hv.
Qed.

Lemma singleton_dispatch_witness :
  getTag (addSingleton Logger (ServiceFun Logger) empty_world) Logger
  = Some (0, Singleton (FactoryFun Logger) VUndefined)
  ∧ ∃ w1 w2,
      get sample_classes 5 CHost Logger
        (addSingleton Logger (ServiceFun Logger) empty_world) = Ok (VObj 0) w1
      ∧ final (get sample_classes 5 (CScope 0) RequestCtx (createScope w1).2)
        = Some w2
      ∧ get sample_classes 1 CHost Logger w2 = Ok (VObj 0) w2.
Proof.
  split; [reflexivity|]. eexists _, _.
  split; [vm_compute; reflexivity|]. split; [vm_compute; reflexivity|].
  destruct (singleton_dispatch sample_classes Logger 0 (FactoryFun Logger) VUndefined
              (addSingleton Logger (ServiceFun Logger) empty_world) eq_refl)
    as (_ & _ & Hsame & _).
  eapply (Hsame 5).
  - vm_compute. reflexivity.
  - reflexivity.
  - apply used_createScope.
    eapply (used_get _ _ _ _ 5 (CScope 0) RequestCtx); [|apply used_refl].
    vm_compute. reflexivity.
Defined.

(** A binding object of a custom container whose factory is [() => 0]: the
    slot is written on every resolution and never read back. *)
Example singleton_zero_is_rebuilt :
  let w := add_binding zero (Singleton (FactoryCustom (Ret (VNum 0))) VUndefined)
             empty_world in
  ∃ w', get sample_classes 3 CHost zero w = Ok (VNum 0) w'
        ∧ getTag w' zero = Some (0, Singleton (FactoryCustom (Ret (VNum 0))) (VNum 0))
        ∧ get sample_classes 3 CHost zero w' = Ok (VNum 0) w'
        ∧ get sample_classes 1 CHost zero w' = Timeout.
Proof. eexists. repeat split; vm_compute; reflexivity. Qed.

(** ** Scoped services *)

Lemma scope_get_scoped classes rg rr s k b f w :
  k ≠ KServiceCollection →
  getTag w k = Some (b, Scoped f) →
  scope_get classes rg rr s k w
  = if truthy (scope_cache w s b) then Ok (scope_cache w s b) w
    else bind (invoke classes rg rr f (CScope s) (CScope s) w)
           (λ newValue w1, Ok newValue (set_cache s b newValue w1)).
Proof. intros Hne Hk. destruct k; try done; simpl; by rewrite Hk. Qed.

Lemma getTag_set_cache s b v w k : getTag (set_cache s b v w) k = getTag w k.
Proof. done. Qed.

Lemma scoped_after_invoke classes fuel w k b f self cb w1 :
  getTag w k = Some (b, Scoped f) →
  final (invoke classes (get classes fuel) (run classes fuel) f self cb w) = Some w1 →
  getTag w1 k = Some (b, Scoped f).
Proof.
  intros Hk Hinv%invoke_same_bindings.
  destruct (getTag_same_bindings _ _ _ _ _ Hinv Hk) as (t' & Hk' & Hshape).
  destruct t'; try discriminate. by injection Hshape as ->.
Qed.

Lemma invoke_scopes_length classes fuel f self cb w w' :
  final (invoke classes (get classes fuel) (run classes fuel) f self cb w) = Some w' →
  length (scopes w') = length (scopes w).
Proof.
  apply (invoke_get_frames classes everywhere
           (λ w w', length (scopes w') = length (scopes w))); try done.
  - intros; congruence.
  - intros t key v w0. by destruct t.
  - intros s b f0 v w0 w1 _ _ _ _ H. simpl. by rewrite length_alter.
  - intros [|s] v w0 _; simpl; [done|]. by rewrite length_alter.
Qed.

Lemma scope_entry_set_cache s b v w :
  s < length (scopes w) →
  scopes (set_cache s b v w) !! s ≫= (λ sc, scope_services sc !! b) = Some v.
Proof.
  intros [sc Hsc]%lookup_lt_is_Some. simpl.
  rewrite list_lookup_alter_eq, Hsc. simpl. apply lookup_insert_eq.
Qed.

(** What a resolution of a scoped key inside scope [s] ends with, when the
    factory ran: the cache entry of the binding holds the value returned. *)
Lemma scope_get_scoped_result classes fuel s k b f w v w' :
  k ≠ KServiceCollection →
  getTag w k = Some (b, Scoped f) →
  s < length (scopes w) →
  get classes fuel (CScope s) k w = Ok v w' →
  getTag w' k = Some (b, Scoped f)
  ∧ ((truthy (scope_cache w s b) = true ∧ v = scope_cache w s b ∧ w' = w)
     ∨ (truthy (scope_cache w s b) = false
        ∧ scopes w' !! s ≫= (λ sc, scope_services sc !! b) = Some v
        ∧ ∃ n w1, fuel = S n
            ∧ invoke classes (get classes n) (run classes n) f (CScope s) (CScope s) w
              = Ok v w1
            ∧ w' = set_cache s b v w1)).
Proof.
  intros Hne Hk Hs Hget. destruct fuel as [|n]; [done|]. simpl in Hget.
  rewrite (scope_get_scoped _ _ _ _ _ b f) in Hget by done.
  destruct (truthy (scope_cache w s b)) eqn:Hc.
  - injection Hget as <- <-. split; [done|]. by left.
  - destruct (invoke _ _ _ _ _ _ _) as [v1 w1| |] eqn:Hinv; try done.
    simpl in Hget. injection Hget as <- <-.
    assert (final (invoke classes (get classes n) (run classes n) f
                     (CScope s) (CScope s) w) = Some w1) as Hfin by by rewrite Hinv.
    split.
    + rewrite getTag_set_cache. by eapply scoped_after_invoke.
    + right. split; [done|]. split.
      * apply scope_entry_set_cache.
        by rewrite (invoke_scopes_length _ _ _ _ _ _ _ Hfin).
      * by exists n, w1.
Qed.

(** C9: when the resolution of a scoped key inside a scope returns a falsy
    value, the factory ran and the value was written into the scope's cache
    entry for the binding; the next resolution in that scope does not take it
    for a hit: it calls the factory again and overwrites the entry. *)
Theorem scoped_falsy_is_rebuilt classes fuel s k b f w v w' :
  k ≠ KServiceCollection →
  getTag w k = Some (b, Scoped f) →
  s < length (scopes w) →
  get classes fuel (CScope s) k w = Ok v w' →
  truthy v = false →
  scopes w' !! s ≫= (λ sc, scope_services sc !! b) = Some v
  ∧ ∀ fuel',
      get classes (S fuel') (CScope s) k w'
      = bind (invoke classes (get classes fuel') (run classes fuel') f
                (CScope s) (CScope s) w')
          (λ newValue w1, Ok newValue (set_cache s b newValue w1)).
Proof.
  intros Hne Hk Hs Hget Hv.
  destruct (scope_get_scoped_result _ _ _ _ _ _ _ _ _ Hne Hk Hs Hget)
    as [Hk' [(Ht & -> & ->)|(Hc & Hentry & _)]]; [congruence|].
  split; [done|]. intros fuel'. simpl.
  rewrite (scope_get_scoped _ _ _ _ _ b f) by done.
  unfold scope_cache. rewrite Hentry. simpl. by rewrite Hv.
Qed.

Lemma scoped_falsy_is_rebuilt_witness :
  let w := (createScope
              (add_binding zero (Scoped (FactoryCustom (Ret (VNum 0)))) empty_world)).2 in
  ∃ w',
    (zero ≠ KServiceCollection
     ∧ getTag w zero = Some (0, Scoped (FactoryCustom (Ret (VNum 0))))
     ∧ 0 < length (scopes w)
     ∧ get sample_classes 3 (CScope 0) zero w = Ok (VNum 0) w'
     ∧ truthy (VNum 0) = false)
    ∧ scopes w' !! 0 ≫= (λ sc, scope_services sc !! 0) = Some (VNum 0)
    ∧ ∀ fuel',
        get sample_classes (S fuel') (CScope 0) zero w'
        = bind (invoke sample_classes (get sample_classes fuel')
                  (run sample_classes fuel') (FactoryCustom (Ret (VNum 0)))
                  (CScope 0) (CScope 0) w')
            (λ newValue w1, Ok newValue (set_cache 0 0 newValue w1)).
Proof.
  intros w. eexists.
  assert (zero ≠ KServiceCollection) as H1 by done.
  assert (getTag w zero = Some (0, Scoped (FactoryCustom (Ret (VNum 0))))) as H2
    by reflexivity.
  assert (0 < length (scopes w)) as H3 by (simpl; lia).
  split; [repeat split; try done; vm_compute; reflexivity|].
  apply (scoped_falsy_is_rebuilt sample_classes 3 0 zero 0 _ w (VNum 0) _ H1 H2 H3);
    [vm_compute|]; reflexivity.
Defined.

Lemma getTag_createScope w k : getTag (createScope w).2 k = getTag w k.
Proof. done. Qed.

Lemma scope_cache_fresh w s b :
  scopes w !! s = Some (mkScope ∅ []) → scope_cache w s b = VUndefined.
Proof. intros H. unfold scope_cache. by rewrite H. Qed.

Lemma getTag_kept_scoped w w' k b f :
  kept w w' → getTag w k = Some (b, Scoped f) → getTag w' k = Some (b, Scoped f).
Proof.
  intros (Hsame & _) Hk.
  destruct (getTag_same_bindings _ _ _ _ _ Hsame Hk) as (t' & Hk' & Hshape).
  destruct t'; try discriminate. by injection Hshape as ->.
Qed.

Lemma two_fresh_scopes w :
  (createScope w).1 = length (scopes w)
  ∧ (createScope (createScope w).2).1 = S (length (scopes w))
  ∧ scopes (createScope (createScope w).2).2 !! length (scopes w)
    = Some (mkScope ∅ [])
  ∧ scopes (createScope (createScope w).2).2 !! S (length (scopes w))
    = Some (mkScope ∅ []).
Proof.
  split; [done|]. split; [simpl; rewrite length_app; simpl; lia|].
  simpl. rewrite <- app_assoc. simpl. split.
  - by rewrite lookup_app_r, Nat.sub_diag.
  - rewrite lookup_app_r by lia.
    by replace (S (length (scopes w)) - length (scopes w)) with 1 by lia.
Qed.

(** The first resolution of a scoped key in a scope that has cached
    nothing calls the factory, and leaves a second such scope as it was. *)
Lemma first_scope_leaves_second classes k b f w sa sb fuel v1 w1 :
  k ≠ KServiceCollection →
  getTag w k = Some (b, Scoped f) →
  sa ≠ sb →
  scopes w !! sa = Some (mkScope ∅ []) →
  scopes w !! sb = Some (mkScope ∅ []) →
  get classes fuel (CScope sa) k w = Ok v1 w1 →
  getTag w1 k = Some (b, Scoped f)
  ∧ scopes w1 !! sb = Some (mkScope ∅ [])
  ∧ ∃ n w1', fuel = S n
      ∧ invoke classes (get classes n) (run classes n) f (CScope sa) (CScope sa) w
        = Ok v1 w1'
      ∧ w1 = set_cache sa b v1 w1'.
Proof.
  intros Hne Hk Hab Hsa Hsb Hget.
  assert (sa < length (scopes w)) as Hlen by by eapply lookup_lt_Some.
  destruct (scope_get_scoped_result _ _ _ _ _ _ _ _ _ Hne Hk Hlen Hget)
    as [Hk1 [(Ht & _)|(_ & _ & n & w1' & -> & Hinv & ->)]].
  { by rewrite (scope_cache_fresh _ _ _ Hsa) in Ht. }
  split; [done|]. split; [|by exists n, w1'].
  assert (final (invoke classes (get classes n) (run classes n) f
                   (CScope sa) (CScope sa) w) = Some w1') as Hfin
    by by rewrite Hinv.
  simpl. rewrite list_lookup_alter_ne by done.
  by rewrite (invoke_other_scopes _ _ _ _ _ _ Hfin).
Qed.

(** C2: once a scoped key has been resolved inside a scope to a truthy
    instance, every later resolution of it inside that scope, whatever use
    was made of the container in between, gives the same instance from the
    scope's cache and changes nothing.  When the factory builds a new object
    on every call, two scopes created from the container never resolve the
    key to the same instance; and when its calls return, both resolutions
    return, with different instances. *)
Theorem scoped_instances classes k b f w :
  getTag w k = Some (b, Scoped f) →
  (∀ fuel s v w1,
     s < length (scopes w) →
     get classes fuel (CScope s) k w = Ok v w1 →
     truthy v = true →
     ∀ w2, used classes w1 w2 →
     ∀ fuel', get classes (S fuel') (CScope s) k w2 = Ok v w2)
  ∧ (fresh_per_call classes f →
     ∀ fuel1 fuel2 v1 v2 w1 w2,
       let sa := (createScope w).1 in
       let sb := (createScope (createScope w).2).1 in
       get classes fuel1 (CScope sa) k (createScope (createScope w).2).2 = Ok v1 w1 →
       get classes fuel2 (CScope sb) k w1 = Ok v2 w2 →
       v1 ≠ v2)
  ∧ (fresh_per_call classes f → factory_returns classes f →
     let sa := (createScope w).1 in
     let sb := (createScope (createScope w).2).1 in
     ∃ fuel1 fuel2 v1 v2 w1 w2,
       get classes fuel1 (CScope sa) k (createScope (createScope w).2).2 = Ok v1 w1
       ∧ get classes fuel2 (CScope sb) k w1 = Ok v2 w2
       ∧ v1 ≠ v2).
Proof.
  intros Hk.
  assert (fresh_per_call classes f →
          ∀ fuel1 fuel2 v1 v2 w1 w2,
            get classes fuel1 (CScope (length (scopes w))) k
              (createScope (createScope w).2).2 = Ok v1 w1 →
            get classes fuel2 (CScope (S (length (scopes w)))) k w1 = Ok v2 w2 →
            v1 ≠ v2) as Hdiff.
  { intros Hfresh fuel1 fuel2 v1 v2 w1 w2 Hget1 Hget2.
    destruct (decide (k = KServiceCollection)) as [->|Hne].
    { destruct fuel1, fuel2; try done. simpl in *.
      injection Hget1 as <- <-. injection Hget2 as <- <-. intros [=]. lia. }
    destruct (two_fresh_scopes w) as (_ & _ & Hsa & Hsb).
    assert (getTag (createScope (createScope w).2).2 k = Some (b, Scoped f))
      as Hkb by done.
    destruct (first_scope_leaves_second _ _ _ _ _ _ _ _ _ _ Hne Hkb
                (n_Sn _) Hsa Hsb Hget1)
      as (Hk1 & Hsb1 & n1 & w1' & -> & Hinv1 & ->).
    destruct (Hfresh _ _ _ _ _ _ Hinv1) as (o1 & -> & _ & Ho1).
    assert (S (length (scopes w))
            < length (scopes (set_cache (length (scopes w)) b (VObj o1) w1')))
      as Hlen1 by by eapply lookup_lt_Some.
    destruct (scope_get_scoped_result _ _ _ _ _ _ _ _ _ Hne Hk1 Hlen1 Hget2)
      as [_ [(Ht & _)|(_ & _ & n2 & w2' & -> & Hinv2 & ->)]].
    { by rewrite (scope_cache_fresh _ _ _ Hsb1) in Ht. }
    destruct (Hfresh _ _ _ _ _ _ Hinv2) as (o2 & -> & Ho2 & _).
    simpl in Ho2. intros [= ->]. lia. }
  destruct (two_fresh_scopes w) as (Esa & Esb & Hsa & Hsb).
  split; [|split].
  - intros fuel s v w1 Hs Hget Hv w2 Hused%used_kept fuel'.
    destruct (decide (k = KServiceCollection)) as [->|Hne].
    { destruct fuel; [done|]. simpl in *. by injection Hget as <- <-. }
    destruct (scope_get_scoped_result _ _ _ _ _ _ _ _ _ Hne Hk Hs Hget)
      as [Hk' Hcase].
    assert (scope_cache w1 s b = v) as Hcache.
    { destruct Hcase as [(_ & -> & ->)|(_ & Hentry & _)]; [done|].
      unfold scope_cache. by rewrite Hentry. }
    apply (getTag_kept_scoped _ _ _ _ _ Hused) in Hk'.
    destruct Hused as (_ & _ & Hcaches).
    specialize (Hcaches s b). rewrite Hcache in Hcaches. specialize (Hcaches Hv).
    simpl. rewrite (scope_get_scoped _ _ _ _ _ b f) by done.
    by rewrite Hcaches, Hv.
  - intros Hfresh fuel1 fuel2 v1 v2 w1 w2 sa sb. subst sa sb.
    rewrite Esa, Esb. by apply Hdiff.
  - intros Hfresh Hret sa sb. subst sa sb. rewrite Esa, Esb.
    destruct (decide (k = KServiceCollection)) as [->|Hne].
    { exists 1, 1, (VCtx (CScope (length (scopes w)))),
        (VCtx (CScope (S (length (scopes w))))).
      eexists _, _. split; [reflexivity|]. split; [reflexivity|].
      intros [=]. lia. }
    set (wb := (createScope (createScope w).2).2) in *.
    assert (getTag wb k = Some (b, Scoped f)) as Hkb by done.
    destruct (Hret (CScope (length (scopes w))) (CScope (length (scopes w))) wb)
      as (n1 & v1 & w1' & Hinv1).
    assert (get classes (S n1) (CScope (length (scopes w))) k wb
            = Ok v1 (set_cache (length (scopes w)) b v1 w1')) as Hget1.
    { simpl. rewrite (scope_get_scoped _ _ _ _ _ b f) by done.
      rewrite (scope_cache_fresh _ _ _ Hsa). simpl. by rewrite Hinv1. }
    destruct (first_scope_leaves_second _ _ _ _ _ _ _ _ _ _ Hne Hkb
                (n_Sn _) Hsa Hsb Hget1) as (Hk1 & Hsb1 & _).
    set (w1 := set_cache (length (scopes w)) b v1 w1') in *.
    destruct (Hret (CScope (S (length (scopes w))))
                (CScope (S (length (scopes w)))) w1) as (n2 & v2 & w2' & Hinv2).
    assert (get classes (S n2) (CScope (S (length (scopes w)))) k w1
            = Ok v2 (set_cache (S (length (scopes w))) b v2 w2')) as Hget2.
    { simpl. rewrite (scope_get_scoped _ _ _ _ _ b f) by done.
      rewrite (scope_cache_fresh _ _ _ Hsb1). simpl. by rewrite Hinv2. }
    exists (S n1), (S n2), v1, v2, w1.
    eexists. split; [exact Hget1|]. split; [exact Hget2|].
    by apply (Hdiff Hfresh _ _ _ _ _ _ Hget1 Hget2).
Qed.

Lemma inject_props_value rg self value meta w v w' :
  inject_props rg self value meta w = Ok v w' → v = value.
Proof.
  revert w. induction meta as [|[key dep] rest IH]; intros w; simpl.
  - by intros [= <- _].
  - destruct (rg self dep w) as [v1 w1| |]; simpl; try done. apply IH.
Qed.

Lemma registerIfDisposable_Ok instance cb w v w' :
  registerIfDisposable instance cb w = Ok v w' →
  v = instance ∧ is_object v = true ∧ heap w' = heap w
  ∧ (w' = w ∨ w' = register cb instance w).
Proof.
  unfold registerIfDisposable.
  destruct instance; simpl; try done.
  - destruct (match obj_caps <$> heap w !! o with Some _ => _ | None => _ end);
      intros [= <- <-]; repeat split; auto. by destruct cb.
  - intros [= <- <-]. repeat split; auto. by destruct cb.
Qed.

Lemma construct_object classes rr self cb service props w v w' :
  construct classes rr self cb service props w = Ok v w' → is_object v = true.
Proof.
  unfold construct. destruct (ctor _) as [body|]; [|done]. simpl.
  destruct (rr _ _ _ _) as [r w1| |]; simpl; try done.
  intros [= <- _]. by destruct (is_object r) eqn:Hr.
Qed.

(** [inject] returns the object [new] gave. *)
Lemma inject_object classes rg rr self cb service props w v w' :
  inject classes rg rr self cb service props w = Ok v w' → is_object v = true.
Proof.
  unfold inject. destruct (inject_metadata _) as [meta|]; [|done].
  destruct (construct _ _ _ _ _ _ _) as [value w1| |] eqn:Hc; simpl; try done.
  intros ->%inject_props_value. by eapply construct_object.
Qed.

Lemma registerIfDisposable_object v cb w :
  is_object v = true → ∃ w', registerIfDisposable v cb w = Ok v w'.
Proof.
  intros Hv. unfold registerIfDisposable.
  destruct v; try done; simpl; [|by eexists].
  destruct (match obj_caps <$> heap w !! o with Some _ => _ | None => _ end);
    by eexists.
Qed.

Lemma run_Ret classes fuel self cb v w v' w' :
  run classes fuel self cb (Ret v) w = Ok v' w' → v' = v ∧ w' = w.
Proof. destruct fuel; [done|]. by intros [= <- <-]. Qed.

(** A class with an empty constructor, registered as itself, is a factory
    that builds a new object on every call: [new] allocates it. *)
Lemma class_factory_fresh classes cls meta :
  inject_metadata (classes cls) = Some meta →
  ctor (classes cls) = Some (λ _ _, Ret VUndefined) →
  fn (classes cls) = None →
  fresh_per_call classes (FactoryFun cls).
Proof.
  intros Hm Hc Hf fuel self cb w v w' Hinv. simpl in Hinv.
  unfold inject, construct, call in Hinv. rewrite Hm, Hc, Hf in Hinv.
  simpl in Hinv.
  destruct (run classes fuel _ _ (Ret VUndefined) _) as [r w0|e w0|] eqn:Hrun;
    simpl in Hinv; try done.
  apply run_Ret in Hrun as [-> ->]. simpl in Hinv.
  destruct (inject_props _ _ _ _ _) as [v1 w1|e w1|] eqn:Hprops; simpl in Hinv;
    try done.
  apply inject_props_value in Hprops as Hv1. subst v1.
  pose proof (inject_props_heap_grows classes fuel _ _ _ _ w1
                (f_equal final Hprops)) as Hgrow.
  unfold heap_grows in Hgrow. simpl in Hgrow. rewrite length_app in Hgrow.
  simpl in Hgrow.
  destruct (registerIfDisposable _ _ _) as [v2 w2|e w2|] eqn:Hreg; simpl in Hinv;
    try done.
  injection Hinv as <- <-.
  apply registerIfDisposable_Ok in Hreg as (-> & _ & Hheap & _).
  eexists. split; [done|]. rewrite Hheap. lia.
Qed.

Lemma class_factory_returns classes cls :
  inject_metadata (classes cls) = Some [] →
  ctor (classes cls) = Some (λ _ _, Ret VUndefined) →
  factory_returns classes (FactoryFun cls).
Proof.
  intros Hm Hc self cb w. exists 1. simpl.
  unfold inject, construct. rewrite Hm, Hc. simpl.
  destruct (registerIfDisposable_object (VObj (length (heap w))) cb
              (alloc (instance_caps (classes cls)) w).2 eq_refl) as [w' Hreg].
  simpl in Hreg. rewrite Hreg. by eexists _, _.
Qed.

Lemma scoped_instances_witness :
  let w := addScoped RequestCtx (ServiceFun RequestCtx) empty_world in
  (getTag w RequestCtx = Some (0, Scoped (FactoryFun RequestCtx))
   ∧ fresh_per_call sample_classes (FactoryFun RequestCtx)
   ∧ factory_returns sample_classes (FactoryFun RequestCtx))
  ∧ ∃ w1 w2,
      get sample_classes 5 (CScope 0) RequestCtx (createScope (createScope w).2).2
      = Ok (VObj 0) w1
      ∧ get sample_classes 5 (CScope 1) RequestCtx w1 = Ok (VObj 1) w2
      ∧ VObj 0 ≠ VObj 1
      ∧ get sample_classes 1 (CScope 0) RequestCtx w2 = Ok (VObj 0) w2.
Proof.
  intros w.
  assert (getTag w RequestCtx = Some (0, Scoped (FactoryFun RequestCtx))) as H1
    by reflexivity.
  assert (fresh_per_call sample_classes (FactoryFun RequestCtx)) as H2
    by by apply (class_factory_fresh sample_classes RequestCtx []).
  assert (factory_returns sample_classes (FactoryFun RequestCtx)) as H3
    by by apply (class_factory_returns sample_classes RequestCtx).
  split; [done|].
  destruct (scoped_instances sample_classes RequestCtx 0 _
              (createScope (createScope w).2).2 H1) as (Hsame & _ & _).
  destruct (scoped_instances sample_classes RequestCtx 0 _ w H1)
    as (_ & Hdiff & _).
  eexists _, _.
  split; [vm_compute; reflexivity|]. split; [vm_compute; reflexivity|]. split.
  - eapply (Hdiff H2 5 5).
    + vm_compute. reflexivity.
    + vm_compute. reflexivity.
  - eapply (Hsame 5 0).
    + simpl. lia.
    + vm_compute. reflexivity.
    + reflexivity.
    + eapply (used_get _ _ _ _ 5 (CScope 1) RequestCtx); [|apply used_refl].
      vm_compute. reflexivity.
Defined.

(** ** Delegation from a scope to its parent *)

Lemma scope_get_delegated classes rg rr s k b t w :
  k ≠ KServiceCollection →
  getTag w k = Some (b, t) →
  tag t ≠ TagScoped →
  scope_get classes rg rr s k w
  = getFromTaggedService classes rg rr CHost (b, t) CHost w.
Proof.
  intros Hne Hk Ht. destruct k; try done; simpl; rewrite Hk; by destruct t.
Qed.

Lemma disposable_heap w w' v : heap w' = heap w → disposable w' v = disposable w v.
Proof. intros H. destruct v; simpl; try done. by rewrite H. Qed.

Lemma registerIfDisposable_registers instance w v w' :
  registerIfDisposable instance CHost w = Ok v w' →
  disposable w' v = Some true →
  host_dispose w' = host_dispose w ++ [v].
Proof.
  intros Hreg Hd.
  destruct (registerIfDisposable_Ok _ _ _ _ _ Hreg) as (-> & _ & Hheap & _).
  rewrite (disposable_heap w) in Hd by done.
  unfold registerIfDisposable in Hreg. rewrite Hd in Hreg. by injection Hreg as <-.
Qed.

(** Whatever a synthesised factory returns went through
    [registerIfDisposable] last. *)
Lemma invoke_synthesized_registers classes rg rr f self w v w' :
  synthesized f = true →
  invoke classes rg rr f self CHost w = Ok v w' →
  disposable w' v = Some true →
  ∃ d, host_dispose w' = d ++ [v].
Proof.
  intros Hf Hinv Hd. destruct f as [g|base args|x|body]; try done; simpl in Hinv.
  - destruct (inject _ _ _ _ _ _ _ _) as [v1 w1|e w1|]; simpl in Hinv; try done.
    + destruct (registerIfDisposable v1 CHost w1) as [v2 w2|e w2|] eqn:Hreg;
        simpl in Hinv.
      * injection Hinv as <- <-. eexists. by eapply registerIfDisposable_registers.
      * destruct (call _ _ _ _ _ _ _) as [v3 w3| |]; simpl in Hinv; try done.
        eexists. by eapply registerIfDisposable_registers.
      * done.
    + destruct (call _ _ _ _ _ _ _) as [v3 w3| |]; simpl in Hinv; try done.
      eexists. by eapply registerIfDisposable_registers.
  - destruct (inject _ _ _ _ _ _ _ _) as [v1 w1|e w1|]; simpl in Hinv; try done.
    eexists. by eapply registerIfDisposable_registers.
  - eexists. by eapply registerIfDisposable_registers.
Qed.

(** C6, as stated: when a scope resolves a key bound as singleton or
    transient, the resolution is delegated to the parent.  It fails at the
    key [ServiceCollection]: a scope answers it with itself before it looks
    at the bindings, so with an object bound to it as singleton the scope
    returns itself where the parent's dispatch returns the object. *)
Lemma scope_delegates_to_parent_self_key :
  ¬ (∀ classes rg rr s k b t w,
       getTag w k = Some (b, t) →
       tag t ≠ TagScoped →
       get_open classes rg rr (CScope s) k w
       = getFromTaggedService classes rg rr CHost (b, t) CHost w).
Proof.
  intros H.
  specialize (H sample_classes (get sample_classes 0) (run sample_classes 0) 0
                KServiceCollection 0 (Singleton (FactoryVal (VObj 0)) VUndefined)
                (addSingleton KServiceCollection (ServiceVal (VObj 0))
                   (alloc no_caps empty_world).2)
                eq_refl).
  specialize (H ltac:(done)). vm_compute in H. discriminate H.
Qed.

(** C6, amended: when a scope resolves a key other than [ServiceCollection]
    that is bound as singleton or transient, the resolution is the parent's:
    the dispatch runs with the host as the factory's context and the host's
    registration callback, whatever the user code and the nested resolutions
    do.  The container's own steps of such a resolution touch no scope: when
    the user code that runs with the host and the nested resolutions on the
    host leave the scopes as they are, no scope's cache or registry has
    changed when the resolution ends, however it ends.  And when it called a
    factory synthesised by the host and the instance is disposable, the
    instance is the last entry of the host's registry. *)
Theorem scope_delegates_to_parent classes rg rr s k b t w :
  k ≠ KServiceCollection →
  getTag w k = Some (b, t) →
  tag t ≠ TagScoped →
  get_open classes rg rr (CScope s) k w
  = getFromTaggedService classes rg rr CHost (b, t) CHost w
  ∧ ((∀ k0 w0, frames same_scopes w0 (rg CHost k0 w0)) →
     (∀ code w0, frames same_scopes w0 (rr CHost CHost code w0)) →
     ∀ w', final (get_open classes rg rr (CScope s) k w) = Some w' →
           scopes w' = scopes w)
  ∧ (∀ v w',
       get_open classes rg rr (CScope s) k w = Ok v w' →
       synthesized (factory t) = true →
       (∀ f store, t = Singleton f store → truthy store = false) →
       disposable w' v = Some true →
       ∃ d, host_dispose w' = d ++ [v]).
Proof.
  intros Hne Hk Ht.
  assert (get_open classes rg rr (CScope s) k w
          = getFromTaggedService classes rg rr CHost (b, t) CHost w) as Heq
    by by apply scope_get_delegated.
  split; [done|]. rewrite Heq. split.
  - intros Hrg Hrr.
    apply (getFromTaggedService_frames classes host_only same_scopes);
      try host_only_frame.
    + by intros c k0 w0 ->.
    + by intros self cb code w0 -> ->.
    + by apply getTag_Some in Hk as [_ ?].
  - intros v w' Hget Hsyn Hstore Hd.
    unfold getFromTaggedService in Hget. destruct t as [f|f|f store]; simpl in *.
    + done.
    + by eapply invoke_synthesized_registers.
    + rewrite (Hstore _ _ eq_refl) in Hget.
      destruct (invoke _ _ _ _ _ _ _) as [v1 w1| |] eqn:Hinv; simpl in Hget;
        try done.
      injection Hget as <- <-.
      rewrite (disposable_heap w1) in Hd by done.
      by eapply (invoke_synthesized_registers _ _ _ _ _ _ _ _ Hsyn Hinv).
Qed.

Lemma scope_delegates_to_parent_witness :
  let w := (createScope (addSingleton Logger (ServiceFun Logger) empty_world)).2 in
  (Logger ≠ KServiceCollection
   ∧ getTag w Logger = Some (0, Singleton (FactoryFun Logger) VUndefined)
   ∧ tag (Singleton (FactoryFun Logger) VUndefined) ≠ TagScoped)
  ∧ ∃ w',
      get sample_classes 5 (CScope 0) Logger w = Ok (VObj 0) w'
      ∧ scopes w' = scopes w
      ∧ ∃ d, host_dispose w' = d ++ [VObj 0].
Proof.
  intros w.
  assert (Logger ≠ KServiceCollection) as H1 by done.
  assert (getTag w Logger = Some (0, Singleton (FactoryFun Logger) VUndefined)) as H2
    by reflexivity.
  assert (tag (Singleton (FactoryFun Logger) VUndefined) ≠ TagScoped) as H3 by done.
  split; [done|].
  destruct (scope_delegates_to_parent sample_classes (get sample_classes 4)
              (run sample_classes 4) 0 Logger 0 _ w H1 H2 H3)
    as (_ & Hscopes & Hreg).
  assert (get sample_classes 5 (CScope 0) Logger w = Ok (VObj 0) _) as Hget
    by (vm_compute; reflexivity).
  eexists. split; [exact Hget|]. split.
  - apply Hscopes.
    + intros k0 w0 w1. apply host_get_same_scopes.
    + intros code w0. apply host_run_same_scopes.
    + exact (f_equal final Hget).
  - apply (Hreg _ _ Hget); [reflexivity| |reflexivity].
    by intros f store [= <- <-].
Defined.

(** ** Factory synthesis for a callable *)

(** C7: the factory synthesised for a callable first tries the injection
    path with the resolution context as the only explicit argument: the
    callable is run as a constructor on a fresh object with that one
    argument.  When that returns an instance, the instance is the result
    (registered if disposable) and the callable is not called.  When it
    raises, whatever the error and wherever it came from, the error is
    dropped and the callable is called as a plain function with the
    resolution context as its argument, in the state the failed attempt
    left; what that call returns or raises is the result (a class, which
    cannot be called, raises its [TypeError]). *)
Theorem callable_factory_two_paths classes rg rr base f collection cb w :
  let attempt := inject classes rg rr collection cb f [VCtx collection] w in
  let result :=
    invoke classes rg rr (createServiceFactory base (ServiceFun f)) collection cb w in
  (∀ meta body,
     inject_metadata (classes f) = Some meta →
     ctor (classes f) = Some body →
     attempt
     = bind (rr collection cb (body (VObj (length (heap w))) [VCtx collection])
               (alloc (instance_caps (classes f)) w).2)
         (λ r w1,
          inject_props rg collection
            (if is_object r then r else VObj (length (heap w))) meta w1))
  ∧ (∀ v w1, attempt = Ok v w1 →
       ∃ w2, registerIfDisposable v cb w1 = Ok v w2 ∧ result = Ok v w2)
  ∧ (∀ e w1, attempt = Err e w1 →
       (∀ body, fn (classes f) = Some body →
          result = bind (rr collection cb (body [VCtx collection]) w1)
                     (λ v w2, registerIfDisposable v cb w2))
       ∧ (fn (classes f) = None →
          result
          = Err (TypeError "Class constructor cannot be invoked without 'new'") w1))
  ∧ (attempt = Timeout → result = Timeout).
Proof.
  intros attempt result. subst result. simpl. fold attempt.
  split; [|split; [|split]].
  - intros meta body Hm Hb. subst attempt. unfold inject, construct.
    rewrite Hm, Hb. simpl.
    by destruct (rr collection cb _ _) as [r w1|e w1|].
  - intros v w1 Ha. rewrite Ha. simpl.
    destruct (registerIfDisposable_object v cb w1) as [w2 Hreg].
    { by eapply inject_object. }
    exists w2. by rewrite Hreg.
  - intros e w1 Ha. rewrite Ha. simpl. unfold call. split.
    + by intros body ->.
    + by intros ->.
  - intros Ha. by rewrite Ha.
Qed.

Lemma callable_factory_two_paths_witness :
  let w := (createScope (addTransient Logger (ServiceFun Logger) empty_world)).2 in
  (∃ w1 w2,
     inject sample_classes (get sample_classes 3) (run sample_classes 3)
       CHost CHost Logger [VCtx CHost] w = Ok (VObj 0) w1
     ∧ invoke sample_classes (get sample_classes 3) (run sample_classes 3)
         (createServiceFactory Logger (ServiceFun Logger)) CHost CHost w
       = Ok (VObj 0) w2)
  ∧ (∃ w1,
       inject sample_classes (get sample_classes 3) (run sample_classes 3)
         CHost CHost Repo [VCtx CHost] w = Err (Thrown (VStr "boom")) w1
       ∧ invoke sample_classes (get sample_classes 3) (run sample_classes 3)
           (createServiceFactory Repo (ServiceFun Repo)) CHost CHost w
         = Err (TypeError "Class constructor cannot be invoked without 'new'") w1)
  ∧ (∃ e,
       inject sample_classes (get sample_classes 3) (run sample_classes 3)
         (CScope 0) (CScope 0) itself [VCtx (CScope 0)] w = Err e w
       ∧ invoke sample_classes (get sample_classes 3) (run sample_classes 3)
           (createServiceFactory itself (ServiceFun itself)) (CScope 0) (CScope 0) w
         = Ok (VCtx (CScope 0)) (register (CScope 0) (VCtx (CScope 0)) w)).
Proof.
  intros w. split; [|split].
  - destruct (callable_factory_two_paths sample_classes (get sample_classes 3)
                (run sample_classes 3) Logger Logger CHost CHost w)
      as (_ & Hok & _ & _).
    eexists _.
    assert (inject sample_classes (get sample_classes 3) (run sample_classes 3)
              CHost CHost Logger [VCtx CHost] w = Ok (VObj 0) _) as Ha
      by (vm_compute; reflexivity).
    destruct (Hok _ _ Ha) as (w2 & _ & Hres). by exists w2.
  - destruct (callable_factory_two_paths sample_classes (get sample_classes 3)
                (run sample_classes 3) Repo Repo CHost CHost w)
      as (_ & _ & Herr & _).
    eexists _.
    assert (inject sample_classes (get sample_classes 3) (run sample_classes 3)
              CHost CHost Repo [VCtx CHost] w = Err (Thrown (VStr "boom")) _) as Ha
      by (vm_compute; reflexivity).
    split; [exact Ha|]. destruct (Herr _ _ Ha) as [_ Hclass].
    exact (Hclass eq_refl).
  - destruct (callable_factory_two_paths sample_classes (get sample_classes 3)
                (run sample_classes 3) itself itself (CScope 0) (CScope 0) w)
      as (_ & _ & Herr & _).
    eexists _.
    assert (inject sample_classes (get sample_classes 3) (run sample_classes 3)
              (CScope 0) (CScope 0) itself [VCtx (CScope 0)] w = Err _ w) as Ha
      by (vm_compute; reflexivity).
    split; [exact Ha|]. destruct (Herr _ _ Ha) as [Hfn _].
    rewrite (Hfn _ eq_refl). vm_compute. reflexivity.
Defined.

(** A synthesised factory never returns a primitive: [registerIfDisposable]
    applies [in] to the instance, which raises on one.  A falsy construction
    result therefore takes a [ServiceFactory] written by hand. *)
Lemma invoke_synthesized_object classes rg rr f self cb w v w' :
  synthesized f = true →
  invoke classes rg rr f self cb w = Ok v w' →
  is_object v = true.
Proof.
  intros Hf Hinv. destruct f as [g|base args|x|body]; try done; simpl in Hinv.
  - destruct (inject _ _ _ _ _ _ _ _) as [v1 w1|e w1|]; simpl in Hinv; try done.
    + destruct (registerIfDisposable v1 cb w1) as [v2 w2|e w2|] eqn:Hreg;
        simpl in Hinv.
      * injection Hinv as <- <-. by apply registerIfDisposable_Ok in Hreg as (_ & ? & _).
      * destruct (call _ _ _ _ _ _ _) as [v3 w3| |]; simpl in Hinv; try done.
        by apply registerIfDisposable_Ok in Hinv as (_ & ? & _).
      * done.
    + destruct (call _ _ _ _ _ _ _) as [v3 w3| |]; simpl in Hinv; try done.
      by apply registerIfDisposable_Ok in Hinv as (_ & ? & _).
  - destruct (inject _ _ _ _ _ _ _ _) as [v1 w1|e w1|]; simpl in Hinv; try done.
    by apply registerIfDisposable_Ok in Hinv as (_ & ? & _).
  - by apply registerIfDisposable_Ok in Hinv as (_ & ? & _).
Qed.

(** [addSingleton(K, c => 0)]: every resolution calls the function and
    raises at the [in] check; nothing is ever stored. *)
Example synthesized_zero_raises :
  let w := addSingleton zero (ServiceFun zero) empty_world in
  get sample_classes 5 CHost zero w = Err (TypeError "Cannot use 'in' operator") w.
Proof. vm_compute. reflexivity. Qed.

(** Property injection: resolving [Service] builds it, resolves [Logger] in
    the same context and assigns it to the [logger] property. *)
Example service_gets_its_logger :
  let w := addSingleton Logger (ServiceFun Logger)
             (addTransient Service (ServiceFun Service) empty_world) in
  ∃ w', get sample_classes 5 CHost Service w = Ok (VObj 0) w'
        ∧ (obj_props <$> heap w' !! 0) = Some {[ "logger"%string := VObj 1 ]}
        ∧ get sample_classes 5 CHost Logger w' = Ok (VObj 1) w'.
Proof. eexists. repeat split; vm_compute; reflexivity. Qed.

(** Transient bindings build a new instance on every resolution. *)
Example transient_instances_differ :
  let w := addTransient newObject (ServiceFun newObject) empty_world in
  ∃ w1 w2, get sample_classes 5 CHost newObject w = Ok (VObj 0) w1
           ∧ get sample_classes 5 CHost newObject w1 = Ok (VObj 1) w2.
Proof.
  eexists _, _. split.
  - vm_compute. reflexivity.
  - vm_compute. reflexivity.
Qed.

(** ** Teardown *)

Lemma registry_set_registry_empty c r w :
  registry w r = [] → registry (set_registry c [] w) r = [].
Proof.
  destruct c as [|s], r as [|s']; simpl; try done.
  destruct (decide (s = s')) as [->|Hne].
  - intros _. rewrite list_lookup_alter_eq. by destruct (scopes w !! s').
  - by rewrite list_lookup_alter_ne.
Qed.

Lemma registry_swapped r w : registry (set_registry r [] w) r = [].
Proof.
  destruct r as [|s]; simpl; [done|].
  rewrite list_lookup_alter_eq. by destruct (scopes w !! s).
Qed.

Lemma set_registry_empty r w : registry w r = [] → set_registry r [] w = w.
Proof.
  destruct w as [h b m d sc rel]. destruct r as [|s]; simpl.
  - by intros ->.
  - intros Hs. unfold set_registry, set_scopes. simpl. f_equal.
    apply list_eq. intros i. destruct (decide (s = i)) as [<-|Hne].
    + rewrite list_lookup_alter_eq.
      destruct (sc !! s) as [[cache disp]|]; simpl in *; by subst.
    + by rewrite list_lookup_alter_ne.
Qed.

(** A teardown, nested ones included, never puts anything into a registry. *)
Lemma asyncDispose_keeps_empty fuel r c w w' :
  final (asyncDispose fuel c w) = Some w' →
  registry w r = [] → registry w' r = [].
Proof.
  apply (asyncDispose_frames (λ w w', registry w r = [] → registry w' r = [])).
  - done.
  - intros w1 w2 w3 H1 H2 ?. auto.
  - done.
  - intros c0 w0. apply registry_set_registry_empty.
Qed.

(** The loop over heap objects whose releases complete: every release
    method present is called, item by item in list order. *)
Lemma dispose_loop_quiet rec items w log :
  Forall (λ item, releases_quietly w item = true) items →
  dispose_loop rec items (set_released log w)
  = Ok () (set_released (log ++ flat_map (releases_of w) items) w).
Proof.
  intros Hq. revert log. induction Hq as [|item rest Hitem _ IH]; intros log; simpl.
  - by rewrite app_nil_r.
  - destruct item as [| | | | | |o|]; try done.
    unfold releases_quietly in Hitem. unfold releases_of at 1.
    unfold release_async, release_sync, set_released at 1 2 3 4 5. simpl.
    destruct (heap w !! o) as [[[a d] props]|] eqn:Ho; simpl.
    + destruct a as [[]|], d as [[]|]; try done; simpl; rewrite ?Ho; simpl;
        lazymatch goal with
        | |- dispose_loop _ _ ?W = _ =>
            let l := eval simpl in (released W) in
            change W with (set_released l w); rewrite IH;
            by rewrite <- ?app_assoc, ?app_nil_r
        end.
    + rewrite ?Ho. simpl. apply IH.
Qed.

Lemma set_released_same w : set_released (released w) w = w.
Proof. by destruct w. Qed.

Lemma released_set_registry r d w : released (set_registry r d w) = released w.
Proof. by destruct r. Qed.

Lemma releases_of_set_registry r d w item :
  releases_of (set_registry r d w) item = releases_of w item.
Proof. by destruct r. Qed.

Lemma releases_quietly_set_registry r d w item :
  releases_quietly (set_registry r d w) item = releases_quietly w item.
Proof. by destruct r. Qed.

Lemma dispose_loop_app rec l1 l2 w :
  dispose_loop rec (l1 ++ l2) w
  = bind (dispose_loop rec l1 w) (λ _ w1, dispose_loop rec l2 w1).
Proof.
  revert w. induction l1 as [|item rest IH]; intros w; [done|]. simpl.
  destruct (release_async rec item w) as [[] w1|e w1|]; simpl; try done.
  destruct (release_sync item w1) as [[] w2|e w2|]; simpl; try done.
Qed.

(** C5: teardown first replaces the registry's list by an empty one and then
    walks the old list.  When the old list holds heap objects whose releases
    complete, the release log grows by their releases in registration order,
    each item's releases before the next item's.  And whenever a teardown
    has ended, normally or by a release that raised, the registry is empty
    and a second teardown releases nothing and changes nothing. *)
Theorem teardown_in_order_once fuel r w :
  (Forall (λ item, releases_quietly w item = true) (registry w r) →
   asyncDispose (S fuel) r w
   = Ok () (set_released (released w ++ flat_map (releases_of w) (registry w r))
              (set_registry r [] w)))
  ∧ (∀ w', final (asyncDispose fuel r w) = Some w' →
       registry w' r = []
       ∧ ∀ fuel', asyncDispose (S fuel') r w' = Ok () w').
Proof.
  split.
  - intros Hq. simpl.
    rewrite <- (set_released_same (set_registry r [] w)) at 1.
    rewrite (dispose_loop_quiet _ _ (set_registry r [] w)).
    + rewrite (flat_map_ext _ _ (releases_of_set_registry r [] w)).
      by rewrite released_set_registry.
    + eapply Forall_impl; [exact Hq|]. intros item.
      by rewrite releases_quietly_set_registry.
  - intros w' Hfin.
    assert (registry w' r = []) as Hempty.
    { destruct fuel as [|n]; [done|]. simpl in Hfin.
      eapply (dispose_loop_frames (λ w w', registry w r = [] → registry w' r = []));
        [done|auto|done| |exact Hfin|apply registry_swapped].
      intros c w0 w1. apply asyncDispose_keeps_empty. }
    split; [done|]. intros fuel'. simpl. rewrite Hempty. simpl.
    by rewrite set_registry_empty.
Qed.

Lemma teardown_in_order_once_witness :
  ∃ w',
    (registry three_disposables CHost = [VObj 0; VObj 1; VObj 2]
     ∧ Forall (λ item, releases_quietly three_disposables item = true)
         (registry three_disposables CHost))
    ∧ asyncDispose 1 CHost three_disposables = Ok () w'
    ∧ released w'
      = [(VObj 0, AsyncRelease); (VObj 1, SyncRelease);
         (VObj 2, AsyncRelease); (VObj 2, SyncRelease)]
    ∧ registry w' CHost = []
    ∧ asyncDispose 1 CHost w' = Ok () w'.
Proof.
  destruct (teardown_in_order_once 0 CHost three_disposables) as [Horder _].
  assert (registry three_disposables CHost = [VObj 0; VObj 1; VObj 2]) as Hreg
    by (vm_compute; reflexivity).
  assert (Forall (λ item, releases_quietly three_disposables item = true)
            (registry three_disposables CHost)) as Hq.
  { rewrite Hreg. repeat constructor. }
  specialize (Horder Hq). eexists. split; [done|]. split; [exact Horder|].
  split; [vm_compute; reflexivity|].
  destruct (teardown_in_order_once 1 CHost three_disposables) as [_ Honce].
  destruct (Honce _ (f_equal final Horder)) as [Hempty Hagain].
  split; [exact Hempty|exact (Hagain 0)].
Defined.

Lemma asyncDispose_heap fuel c w w' :
  final (asyncDispose fuel c w) = Some w' → heap w' = heap w.
Proof.
  apply (asyncDispose_frames (λ w w', heap w' = heap w)).
  - done.
  - intros; congruence.
  - done.
  - intros c0 w0. by destruct c0.
Qed.

Lemma dispose_loop_heap fuel items w w' :
  final (dispose_loop (asyncDispose fuel) items w) = Some w' → heap w' = heap w.
Proof.
  apply (dispose_loop_frames (λ w w', heap w' = heap w)).
  - done.
  - intros; congruence.
  - done.
  - intros c w0 w1. apply asyncDispose_heap.
Qed.

(** C10: a registered heap object that has both release methods gets both
    called during teardown, wherever it stands in the registry: once the
    loop has gone through the items registered before it (none of whose
    releases raised, or the teardown would have stopped there), it calls the
    object's asynchronous release and, once that has completed, the
    synchronous one; the loop then goes on to the next item (or stops, when
    the synchronous release raised). *)
Theorem both_releases_called fuel r w pre o ob rest out w1 :
  registry w r = pre ++ VObj o :: rest →
  heap w !! o = Some ob →
  asyncDispose_method (obj_caps ob) = Some Completes →
  dispose_method (obj_caps ob) = Some out →
  dispose_loop (asyncDispose fuel) pre (set_registry r [] w) = Ok () w1 →
  releases_of w (VObj o) = [(VObj o, AsyncRelease); (VObj o, SyncRelease)]
  ∧ asyncDispose (S fuel) r w
    = let w2 := set_released
                  (released w1 ++ [(VObj o, AsyncRelease); (VObj o, SyncRelease)])
                  w1 in
      match out with
      | Completes => dispose_loop (asyncDispose fuel) rest w2
      | Raises e => Err e w2
      end.
Proof.
  intros Hreg Ho Ha Hd Hpre. split.
  - unfold releases_of. rewrite Ho. simpl. by rewrite Ha, Hd.
  - assert (heap w1 = heap w) as Hheap.
    { rewrite (dispose_loop_heap fuel pre (set_registry r [] w) w1)
        by by rewrite Hpre.
      by destruct r. }
    simpl. rewrite Hreg, dispose_loop_app, Hpre. cbn [bind dispose_loop].
    unfold release_async. rewrite Hheap, Ho. simpl. rewrite Ha. simpl.
    unfold release_sync. simpl. rewrite Hheap, Ho. simpl. rewrite Hd. simpl.
    rewrite <- app_assoc. simpl. by destruct out.
Qed.

Lemma both_releases_called_witness :
  let w1 := state_after three_disposables
              (dispose_loop (asyncDispose 0) [VObj 0; VObj 1]
                 (set_registry CHost [] three_disposables)) in
  registry three_disposables CHost = [VObj 0; VObj 1] ++ VObj 2 :: []
  ∧ dispose_loop (asyncDispose 0) [VObj 0; VObj 1]
      (set_registry CHost [] three_disposables) = Ok () w1
  ∧ ∃ w',
      asyncDispose 1 CHost three_disposables = Ok () w'
      ∧ released w'
        = [(VObj 0, AsyncRelease); (VObj 1, SyncRelease);
           (VObj 2, AsyncRelease); (VObj 2, SyncRelease)].
Proof.
  intros w1.
  assert (registry three_disposables CHost = [VObj 0; VObj 1] ++ VObj 2 :: [])
    as Hreg by (vm_compute; reflexivity).
  assert (dispose_loop (asyncDispose 0) [VObj 0; VObj 1]
            (set_registry CHost [] three_disposables) = Ok () w1) as Hpre
    by (vm_compute; reflexivity).
  split; [exact Hreg|]. split; [exact Hpre|].
  destruct (both_releases_called 0 CHost three_disposables [VObj 0; VObj 1] 2
              (mkObj (mkCaps (Some Completes) (Some Completes)) ∅) [] Completes w1)
    as [_ Hrun]; [exact Hreg|vm_compute; reflexivity|reflexivity|reflexivity
                 |exact Hpre|].
  eexists. split; [exact Hrun|]. vm_compute. reflexivity.
Defined.

(** A host that registered itself (the factory [c => c] returned it): its
    teardown reaches its own teardown, which finds the list already swapped
    for the empty one and returns. *)
Example host_registered_in_itself :
  let w := state_after empty_world
             (get sample_classes 5 CHost itself
                (addSingleton itself (ServiceFun itself) empty_world)) in
  registry w CHost = [VCtx CHost]
  ∧ ∃ w', asyncDispose 2 CHost w = Ok () w'
          ∧ released w' = [(VCtx CHost, AsyncRelease)]
          ∧ registry w' CHost = [].
Proof.
  split; [vm_compute; reflexivity|].
  eexists. repeat split; vm_compute; reflexivity.
Qed.

(** * Further properties of the code *)

(** ** Registration and lookup *)

Lemma getTag_add_binding_same base tagged w :
  getTag (add_binding base tagged w) base = Some (length (bindings w), tagged).
Proof.
  apply getTag_Some. split; simpl.
  - apply lookup_insert_eq.
  - by rewrite lookup_app_r, Nat.sub_diag.
Qed.

Lemma getTag_add_binding_other base tagged w k :
  k ≠ base →
  (∀ bt, getTag w k = Some bt → getTag (add_binding base tagged w) k = Some bt)
  ∧ (services w !! k = None → getTag (add_binding base tagged w) k = None).
Proof.
  intros Hne. split.
  - intros [b t] [Hk Hb]%getTag_Some. apply getTag_Some. split; simpl.
    + by rewrite lookup_insert_ne.
    + by apply lookup_app_l_Some.
  - intros Hk. unfold getTag. simpl. by rewrite lookup_insert_ne, Hk.
Qed.

(** X1: [addSingleton], [addScoped] and [addTransient] bind the key to a new
    binding object carrying the synthesised factory (and, for a singleton,
    an empty slot), whatever the key was bound to before; every other key
    keeps the binding object it had, and an unbound one stays unbound. *)
Theorem registration_lookup base service w :
  getTag (addSingleton base service w) base
  = Some (length (bindings w),
          Singleton (createServiceFactory base service) VUndefined)
  ∧ getTag (addScoped base service w) base
    = Some (length (bindings w), Scoped (createServiceFactory base service))
  ∧ getTag (addTransient base service w) base
    = Some (length (bindings w), Transient (createServiceFactory base service))
  ∧ (∀ k bt, k ≠ base → getTag w k = Some bt →
       getTag (addSingleton base service w) k = Some bt
       ∧ getTag (addScoped base service w) k = Some bt
       ∧ getTag (addTransient base service w) k = Some bt)
  ∧ (∀ k, k ≠ base → services w !! k = None →
       getTag (addSingleton base service w) k = None
       ∧ getTag (addScoped base service w) k = None
       ∧ getTag (addTransient base service w) k = None).
Proof.
  repeat split; try apply getTag_add_binding_same;
    try (by apply getTag_add_binding_other).
Qed.

(** X2: Registering a key again forgets what was resolved under it: for a
    singleton key other than the container's own classes (which the host
    answers with itself), a singleton that had been built is built anew by
    the next resolution on the host, with the new factory, while the old
    binding object keeps its slot out of reach. *)
Theorem reregistration_forgets classes fuel k b f v service w :
  getTag w k = Some (b, Singleton f v) →
  self_key k = false →
  bindings (addSingleton k service w) !! b = Some (Singleton f v)
  ∧ get classes (S fuel) CHost k (addSingleton k service w)
    = bind (invoke classes (get classes fuel) (run classes fuel)
              (createServiceFactory k service) CHost CHost
              (addSingleton k service w))
        (λ v' w1, Ok v' (set_store (length (bindings w)) v' w1)).
Proof.
  intros [_ Hb]%getTag_Some Hself. split.
  - simpl. by apply lookup_app_l_Some.
  - destruct k; try discriminate. simpl. unfold collection_get.
    unfold addSingleton. by rewrite getTag_add_binding_same.
Qed.

Lemma reregistration_forgets_witness :
  let w := state_after empty_world
             (get sample_classes 5 CHost Logger
                (addSingleton Logger (ServiceFun Logger) empty_world)) in
  (getTag w Logger = Some (0, Singleton (FactoryFun Logger) (VObj 0))
   ∧ self_key Logger = false)
  ∧ get sample_classes 5 CHost Logger w = Ok (VObj 0) w
  ∧ ∃ w', get sample_classes 5 CHost Logger
            (addSingleton Logger (ServiceFun Logger) w) = Ok (VObj 1) w'.
Proof.
  intros w.
  assert (getTag w Logger = Some (0, Singleton (FactoryFun Logger) (VObj 0))) as H1
    by (vm_compute; reflexivity).
  split; [done|]. split; [vm_compute; reflexivity|].
  destruct (reregistration_forgets sample_classes 4 Logger 0 _ _
              (ServiceFun Logger) w H1 eq_refl) as [_ Hget].
  eexists. rewrite Hget. vm_compute. reflexivity.
Defined.

(** ** Transient and singleton lifetimes, from any context *)

Lemma used_heap_grows classes w w' : used classes w w' → heap_grows w w'.
Proof.
  induction 1 as [w|w w1 w2 fuel c k Hget _ IH|w w1 w2 fuel c cls args Hinj _ IH
                 |w w2 _ IH|w w1 w2 fuel c Hd _ IH]; unfold heap_grows in *.
  - done.
  - pose proof (get_heap_grows classes fuel c k w w1 Hget) as Hg.
    unfold heap_grows in Hg. lia.
  - assert (heap_grows w w1) as Hg.
    { revert Hinj. apply (inject_frames classes everywhere heap_grows);
        try heap_grows_frame.
      - intros c0 k0 w0 _. apply get_heap_grows.
      - intros self0 cb0 c0 w0 _ _.
        apply (get_run_frames classes everywhere heap_grows); heap_grows_frame. }
    unfold heap_grows in Hg. lia.
  - simpl in IH. lia.
  - assert (heap w1 = heap w) as Hg.
    { revert Hd. apply (asyncDispose_frames (λ w w', heap w' = heap w)); try done.
      - intros; congruence.
      - intros [] ?; done. }
    rewrite Hg in IH. lia.
Qed.

(** A key that is none of the self-resolving classes and is not bound as
    scoped is resolved by a scope exactly as by the host. *)
Lemma get_through_scope classes fuel s k w :
  self_key k = false →
  (∀ b f, getTag w k ≠ Some (b, Scoped f)) →
  get classes (S fuel) (CScope s) k w = get classes (S fuel) CHost k w.
Proof.
  intros Hself Hns. destruct k; try discriminate. simpl.
  unfold collection_get. destruct (getTag w (KClass n)) as [[b [f|f|f st]]|] eqn:Hk;
    try done.
  by destruct (Hns b f).
Qed.

Lemma get_nonscoped_dispatch classes fuel c k b t w :
  self_key k = false →
  getTag w k = Some (b, t) →
  tag t ≠ TagScoped →
  get classes (S fuel) c k w
  = getFromTaggedService classes (get classes fuel) (run classes fuel)
      CHost (b, t) CHost w.
Proof.
  intros Hself Hk Ht. destruct c as [|s].
  - destruct k; try discriminate. simpl. unfold collection_get. by rewrite Hk.
  - apply scope_get_delegated; try done. by destruct k.
Qed.

(** X3: Transient: two resolutions of a key, other than the container's own
    classes, that is bound as transient to a factory that builds a new
    object per call never return the same instance, whichever contexts they
    are made on and whatever use of the container lies between them. *)
Theorem transient_never_repeats classes k b f w :
  getTag w k = Some (b, Transient f) →
  self_key k = false →
  fresh_per_call classes f →
  ∀ c1 c2 fuel1 fuel2 v1 v2 w1 w2 w3,
    get classes fuel1 c1 k w = Ok v1 w1 →
    used classes w1 w2 →
    get classes fuel2 c2 k w2 = Ok v2 w3 →
    v1 ≠ v2.
Proof.
  intros Hk Hself Hfresh c1 c2 fuel1 fuel2 v1 v2 w1 w2 w3 Hget1 Hused Hget2.
  destruct fuel1 as [|n1]; [done|]. destruct fuel2 as [|n2]; [done|].
  rewrite (get_nonscoped_dispatch _ _ _ _ b (Transient f)) in Hget1 by done.
  unfold getFromTaggedService in Hget1. simpl in Hget1.
  destruct (Hfresh _ _ _ _ _ _ Hget1) as (o1 & -> & _ & Ho1).
  assert (getTag w2 k = Some (b, Transient f)) as Hk2.
  { assert (kept w w2) as [Hsame _].
    { eapply kept_trans; [|by eapply used_kept].
      apply (get_kept classes (S n1) c1 k w).
      rewrite (get_nonscoped_dispatch _ _ _ _ b (Transient f)) by done.
      unfold getFromTaggedService. simpl. by rewrite Hget1. }
    destruct (getTag_same_bindings _ _ _ _ _ Hsame Hk) as (t' & Hk' & Hshape).
    destruct t'; try discriminate. by injection Hshape as ->. }
  rewrite (get_nonscoped_dispatch _ _ _ _ b (Transient f)) in Hget2 by done.
  unfold getFromTaggedService in Hget2. simpl in Hget2.
  destruct (Hfresh _ _ _ _ _ _ Hget2) as (o2 & -> & Ho2 & _).
  apply used_heap_grows in Hused. unfold heap_grows in Hused.
  intros [= ->]. lia.
Qed.

Lemma transient_never_repeats_witness :
  let w := (createScope
              (addTransient RequestCtx (ServiceFun RequestCtx) empty_world)).2 in
  (getTag w RequestCtx = Some (0, Transient (FactoryFun RequestCtx))
   ∧ self_key RequestCtx = false
   ∧ fresh_per_call sample_classes (FactoryFun RequestCtx))
  ∧ ∃ w1 w2,
      get sample_classes 5 CHost RequestCtx w = Ok (VObj 0) w1
      ∧ get sample_classes 5 (CScope 0) RequestCtx w1 = Ok (VObj 1) w2
      ∧ VObj 0 ≠ VObj 1.
Proof.
  intros w.
  assert (getTag w RequestCtx = Some (0, Transient (FactoryFun RequestCtx))) as H1
    by reflexivity.
  assert (fresh_per_call sample_classes (FactoryFun RequestCtx)) as H2
    by by apply (class_factory_fresh sample_classes RequestCtx []).
  split; [done|]. eexists _, _.
  split; [vm_compute; reflexivity|]. split; [vm_compute; reflexivity|].
  eapply (transient_never_repeats sample_classes RequestCtx 0 _ w H1 eq_refl H2
            CHost (CScope 0) 5 5).
  - vm_compute. reflexivity.
  - apply used_refl.
  - vm_compute. reflexivity.
Defined.

(** X4: Singleton, from any context: once a singleton key has been resolved to a
    truthy instance on the host or through any scope, every later resolution
    of it, on the host or through any scope, returns that instance and
    changes nothing. *)
Theorem singleton_shared_by_all_contexts classes k b f store w :
  getTag w k = Some (b, Singleton f store) →
  self_key k = false →
  ∀ c1 fuel v w1,
    get classes fuel c1 k w = Ok v w1 →
    truthy v = true →
    ∀ w2, used classes w1 w2 →
    ∀ c2 fuel', get classes (S fuel') c2 k w2 = Ok v w2.
Proof.
  intros Hk Hself c1 fuel v w1 Hget Hv w2 Hused%used_kept c2 fuel'.
  destruct fuel as [|n]; [done|].
  rewrite (get_nonscoped_dispatch _ _ _ _ b (Singleton f store)) in Hget by done.
  unfold getFromTaggedService in Hget. simpl in Hget.
  assert (getTag w1 k = Some (b, Singleton f v)) as Hk1.
  { destruct (truthy store).
    - by injection Hget as <- <-.
    - destruct (invoke _ _ _ _ _ _ _) as [v1 w1'| |] eqn:Hinv; try done.
      simpl in Hget. injection Hget as <- <-. by eapply singleton_stored. }
  apply (getTag_kept_singleton _ _ _ _ _ _ Hused) in Hk1; [|done].
  rewrite (get_nonscoped_dispatch _ _ _ _ b (Singleton f v)) by done.
  unfold getFromTaggedService. simpl. by rewrite Hv.
Qed.

Lemma singleton_shared_by_all_contexts_witness :
  let w := (createScope (createScope
              (addSingleton Logger (ServiceFun Logger) empty_world)).2).2 in
  (getTag w Logger = Some (0, Singleton (FactoryFun Logger) VUndefined)
   ∧ self_key Logger = false)
  ∧ ∃ w1,
      get sample_classes 5 (CScope 0) Logger w = Ok (VObj 0) w1
      ∧ get sample_classes 1 (CScope 1) Logger w1 = Ok (VObj 0) w1
      ∧ get sample_classes 1 CHost Logger w1 = Ok (VObj 0) w1.
Proof.
  intros w.
  assert (getTag w Logger = Some (0, Singleton (FactoryFun Logger) VUndefined)) as H1
    by reflexivity.
  split; [done|]. eexists. split; [vm_compute; reflexivity|].
  pose proof (singleton_shared_by_all_contexts sample_classes Logger 0 _ _ w
                H1 eq_refl (CScope 0) 5 (VObj 0)) as H.
  split.
  - eapply H; [vm_compute; reflexivity|reflexivity|apply used_refl].
  - eapply H; [vm_compute; reflexivity|reflexivity|apply used_refl].
Defined.

(** ** What scopes answer for the library's own classes *)

(** X5: A scope resolves [ServiceCollection] to itself, whatever is registered;
    [ServiceHost] and [ServiceContainer], when nothing is registered under
    them, it resolves to its parent, the host. *)
Theorem scope_get_self classes fuel s w :
  get classes (S fuel) (CScope s) KServiceCollection w = Ok (VCtx (CScope s)) w
  ∧ (services w !! KServiceHost = None →
     get classes (S fuel) (CScope s) KServiceHost w = Ok (VCtx CHost) w)
  ∧ (services w !! KServiceContainer = None →
     get classes (S fuel) (CScope s) KServiceContainer w = Ok (VCtx CHost) w).
Proof.
  split; [done|].
  split; intros Hk%getTag_unregistered; simpl; by rewrite Hk.
Qed.

(** X6: A binding registered under [ServiceHost] or [ServiceContainer] is never
    used by the host, which answers with itself, but it is used by every
    scope: with an object registered as the service, the host's [get]
    returns the host and a scope's [get] returns the object. *)
Theorem self_key_binding_splits_contexts classes fuel s k v w :
  k = KServiceHost ∨ k = KServiceContainer →
  is_object v = true →
  get classes (S fuel) CHost k (addTransient k (ServiceVal v) w)
  = Ok (VCtx CHost) (addTransient k (ServiceVal v) w)
  ∧ ∃ w', get classes (S fuel) (CScope s) k (addTransient k (ServiceVal v) w)
          = Ok v w'.
Proof.
  intros Hk Hv. split; [by destruct Hk as [-> | ->]|].
  assert (k ≠ KServiceCollection) as Hne by (destruct Hk as [-> | ->]; done).
  assert (get classes (S fuel) (CScope s) k (addTransient k (ServiceVal v) w)
          = getFromTaggedService classes (get classes fuel) (run classes fuel) CHost
              (length (bindings w), Transient (FactoryVal v)) CHost
              (addTransient k (ServiceVal v) w)) as ->.
  { apply scope_get_delegated; try done. apply getTag_add_binding_same. }
  unfold getFromTaggedService. simpl. by apply registerIfDisposable_object.
Qed.

Lemma self_key_binding_splits_contexts_witness :
  (KServiceHost = KServiceHost ∨ KServiceHost = KServiceContainer)
  ∧ is_object (VObj 7) = true
  ∧ get sample_classes 1 CHost KServiceHost
      (addTransient KServiceHost (ServiceVal (VObj 7)) (createScope empty_world).2)
    = Ok (VCtx CHost)
        (addTransient KServiceHost (ServiceVal (VObj 7)) (createScope empty_world).2)
  ∧ ∃ w', get sample_classes 1 (CScope 0) KServiceHost
            (addTransient KServiceHost (ServiceVal (VObj 7))
               (createScope empty_world).2)
          = Ok (VObj 7) w'.
Proof.
  split; [by left|]. split; [done|].
  apply (self_key_binding_splits_contexts sample_classes 0 0 KServiceHost (VObj 7));
    [by left|done].
Defined.

(** ** The states a host can reach *)

Lemma same_bindings_length w w' :
  same_bindings w w' → length (bindings w') = length (bindings w).
Proof. intros [_ H]. by rewrite <- (length_fmap shape), H, length_fmap. Qed.

Lemma cache_entry_set_registry r d w s b :
  cache_entry (set_registry r d w) s b = cache_entry w s b.
Proof.
  destruct r as [|s']; [done|]. unfold cache_entry. simpl.
  destruct (decide (s' = s)) as [->|Hne].
  - rewrite list_lookup_alter_eq. by destruct (scopes w !! s).
  - by rewrite list_lookup_alter_ne.
Qed.

Lemma cache_entry_set_cache s b v w s' b' :
  is_Some (cache_entry (set_cache s b v w) s' b') →
  (s' = s ∧ b' = b) ∨ is_Some (cache_entry w s' b').
Proof.
  unfold cache_entry. simpl. destruct (decide (s = s')) as [->|Hs].
  - rewrite list_lookup_alter_eq. destruct (scopes w !! s') as [sc|]; simpl.
    + destruct (decide (b = b')) as [->|Hb]; [by left|].
      rewrite lookup_insert_ne by done. by right.
    + by intros [? [=]].
  - rewrite list_lookup_alter_ne by done. by right.
Qed.

Lemma cache_entry_set_cache_Some s b v w s' b' v' :
  cache_entry (set_cache s b v w) s' b' = Some v' →
  v' = v ∨ cache_entry w s' b' = Some v'.
Proof.
  unfold cache_entry. simpl. destruct (decide (s = s')) as [->|Hs].
  - rewrite list_lookup_alter_eq. destruct (scopes w !! s') as [sc|]; simpl.
    + destruct (decide (b = b')) as [->|Hb].
      * rewrite lookup_insert_eq. intros [= <-]. by left.
      * rewrite lookup_insert_ne by done. by right.
    + done.
  - rewrite list_lookup_alter_ne by done. by right.
Qed.

Lemma caches_grow_validly_same w w' :
  services w' = services w → bindings w' = bindings w →
  (∀ s b, cache_entry w' s b = cache_entry w s b) →
  caches_grow_validly w w'.
Proof.
  intros Hs Hb Hc. split.
  - split; [done|by rewrite Hb].
  - intros s b. rewrite Hc. by left.
Qed.

Lemma caches_grow_validly_trans w1 w2 w3 :
  caches_grow_validly w1 w2 → caches_grow_validly w2 w3 →
  caches_grow_validly w1 w3.
Proof.
  intros [Hs1 Hc1] [Hs2 Hc2]. split.
  - destruct Hs1, Hs2. split; congruence.
  - intros s b H3. destruct (Hc2 s b H3) as [H2|H2].
    + by apply Hc1.
    + right. by rewrite <- (same_bindings_length w1 w2).
Qed.

(** A relation every primitive update satisfies holds between a state and
    any state the container is used into. *)
Section UsedFrame.
Variable classes : Key → Callable.
Variable R : World → World → Prop.
Hypothesis R_refl : ∀ w, R w w.
Hypothesis R_trans : ∀ w1 w2 w3, R w1 w2 → R w2 w3 → R w1 w3.
Hypothesis R_alloc : ∀ c w, R w (alloc c w).2.
Hypothesis R_set_prop : ∀ t k v w, R w (set_prop t k v w).
Hypothesis R_set_store : ∀ b f store v w w1,
  bindings w !! b = Some (Singleton f store) → truthy store = false →
  (∃ rg rr self cb, invoke classes rg rr f self cb w = Ok v w1) →
  R w w1 → R w (set_store b v w1).
Hypothesis R_set_cache : ∀ s b f v w w1,
  everywhere (CScope s) →
  bindings w !! b = Some (Scoped f) → truthy (scope_cache w s b) = false →
  (∃ rg rr self cb, invoke classes rg rr f self cb w = Ok v w1) →
  R w w1 → R w (set_cache s b v w1).
Hypothesis R_register : ∀ r v w, everywhere r → R w (register r v w).
Hypothesis R_createScope : ∀ w, R w (createScope w).2.
Hypothesis R_set_released : ∀ l w, R w (set_released l w).
Hypothesis R_swap : ∀ c w, R w (set_registry c [] w).

Lemma used_frames w w' : used classes w w' → R w w'.
Proof using All.
  induction 1 as [w|w w1 w2 fuel c k Hget _ IH|w w1 w2 fuel c cls args Hinj _ IH
                 |w w2 _ IH|w w1 w2 fuel c Hd _ IH].
  - apply R_refl.
  - eapply R_trans; [|exact IH]. revert Hget.
    by apply (get_frames classes everywhere R).
  - eapply R_trans; [|exact IH]. revert Hinj.
    apply (inject_frames classes everywhere R); try done.
    + intros c0 k0 w0 _. by apply (get_frames classes everywhere R).
    + intros self0 cb0 c0 w0 _ _.
      by apply (get_run_frames classes everywhere R).
  - eapply R_trans; [apply R_createScope|exact IH].
  - eapply R_trans; [|exact IH]. revert Hd. by apply asyncDispose_frames.
Qed.
End UsedFrame.

Lemma used_caches_grow_validly classes w w' :
  used classes w w' → caches_grow_validly w w'.
Proof.
  apply (used_frames classes caches_grow_validly).
  - intros w0. by apply caches_grow_validly_same.
  - exact caches_grow_validly_trans.
  - intros c0 w0. by apply caches_grow_validly_same.
  - intros [] ???; by apply caches_grow_validly_same.
  - intros b f store v w0 w1 _ _ _ [[Hs Hsh] Hc]. split; [|done].
    split; [done|]. by rewrite shape_set_store.
  - intros s b f v w0 w1 _ Hb _ _ [Hsame Hc]. split; [done|].
    intros s' b' [[-> ->]|H]%cache_entry_set_cache.
    + right. by eapply lookup_lt_Some.
    + by apply Hc.
  - intros r v w0 _. apply caches_grow_validly_same; [by destruct r..|].
    intros. apply cache_entry_set_registry.
  - intros w0. split; [done|]. intros s b. unfold cache_entry. simpl.
    destruct (decide (s < length (scopes w0))) as [Hlt|Hge].
    + rewrite lookup_app_l by done. by left.
    + rewrite lookup_app_r by lia.
      destruct (s - length (scopes w0)) as [|[|n]]; simpl; by intros [? [=]].
  - intros l w0. by apply caches_grow_validly_same.
  - intros r w0. apply caches_grow_validly_same; [by destruct r..|].
    intros. apply cache_entry_set_registry.
Qed.

Lemma well_formed_used classes w w' :
  well_formed w → used classes w w' → well_formed w'.
Proof.
  intros [Hk Hc] [Hsame Hgrow]%used_caches_grow_validly.
  pose proof (same_bindings_length _ _ Hsame) as Hlen.
  destruct Hsame as [Hs _]. split.
  - intros k b. rewrite Hs, Hlen. apply Hk.
  - intros s b H. rewrite Hlen. destruct (Hgrow s b H) as [H'|H']; [|done].
    by apply (Hc s).
Qed.

Lemma well_formed_add_binding base tagged w :
  well_formed w → well_formed (add_binding base tagged w).
Proof.
  intros [Hk Hc]. split; simpl; rewrite length_app; simpl.
  - intros k b. destruct (decide (k = base)) as [->|Hne].
    + rewrite lookup_insert_eq. intros [= <-]. lia.
    + rewrite lookup_insert_ne by done. intros H%Hk. lia.
  - intros s b H. specialize (Hc s b H). lia.
Qed.

Lemma reachable_well_formed classes w : reachable classes w → well_formed w.
Proof.
  induction 1 as [|w base service _ IH|w base service _ IH|w base service _ IH
                 |w w' _ IH Hused].
  - split; [intros k b; simpl; by rewrite lookup_empty|].
    intros s b. unfold cache_entry. simpl. by intros [? [=]].
  - by apply well_formed_add_binding.
  - by apply well_formed_add_binding.
  - by apply well_formed_add_binding.
  - by eapply well_formed_used.
Qed.

(** In a state a host can reach, no scope has an entry for a binding
    object that is about to be created. *)
Lemma well_formed_next_binding_uncached w s :
  well_formed w → scope_cache w s (length (bindings w)) = VUndefined.
Proof.
  intros [_ Hc]. unfold scope_cache. specialize (Hc s (length (bindings w))).
  unfold cache_entry in Hc.
  destruct (scopes w !! s ≫= _) as [v|]; [|done].
  assert (length (bindings w) < length (bindings w)) by eauto. lia.
Qed.

Lemma host_built_same w w' :
  bindings w' = bindings w →
  (∀ s b, cache_entry w' s b = cache_entry w s b) →
  host_built w → host_built w'.
Proof.
  intros Hb Hc (H1 & H2 & H3). split; [|split].
  - intros b t. rewrite Hb. apply H1.
  - intros b f v. rewrite Hb. apply H2.
  - intros s b v. rewrite Hc. apply H3.
Qed.

Lemma host_built_set_store classes b f store v w w1 :
  bindings w !! b = Some (Singleton f store) →
  (∃ rg rr self cb, invoke classes rg rr f self cb w = Ok v w1) →
  host_built w → host_built w1 → host_built (set_store b v w1).
Proof.
  intros Hb (rg & rr & self & cb & Hinv) (Hw & _ & _) (H1 & H2 & H3).
  assert (is_object v = true) as Hv.
  { eapply invoke_synthesized_object; [|exact Hinv]. exact (Hw _ _ Hb). }
  split; [|split]; [| |done].
  - intros b' t. simpl. destruct (decide (b = b')) as [<-|Hne].
    + rewrite list_lookup_alter_eq.
      destruct (bindings w1 !! b) as [t1|] eqn:Ht1; [|done]. simpl.
      intros [= <-]. specialize (H1 _ _ Ht1). by destruct t1.
    + rewrite list_lookup_alter_ne by done. apply H1.
  - intros b' f' v'. simpl. destruct (decide (b = b')) as [<-|Hne].
    + rewrite list_lookup_alter_eq.
      destruct (bindings w1 !! b) as [[?|?|f1 v1]|]; simpl; try done.
      intros [= <- <-]. by right.
    + rewrite list_lookup_alter_ne by done. apply H2.
Qed.

Lemma host_built_set_cache classes s b f v w w1 :
  bindings w !! b = Some (Scoped f) →
  (∃ rg rr self cb, invoke classes rg rr f self cb w = Ok v w1) →
  host_built w → host_built w1 → host_built (set_cache s b v w1).
Proof.
  intros Hb (rg & rr & self & cb & Hinv) (Hw & _ & _) (H1 & H2 & H3).
  assert (is_object v = true) as Hv.
  { eapply invoke_synthesized_object; [|exact Hinv]. exact (Hw _ _ Hb). }
  split; [|split]; [done..|].
  intros s' b' v' [->|H]%cache_entry_set_cache_Some; [done|by eapply H3].
Qed.

Lemma host_built_used classes w w' :
  used classes w w' → host_built w → host_built w'.
Proof.
  apply (used_frames classes (λ w w', host_built w → host_built w')).
  - done.
  - auto.
  - intros c0 w0. by apply host_built_same.
  - intros [] ???; by apply host_built_same.
  - intros b f store v w0 w1 Hb _ Hinv IH Hw.
    eapply host_built_set_store; eauto.
  - intros s b f v w0 w1 _ Hb _ Hinv IH Hw.
    eapply host_built_set_cache; eauto.
  - intros r v w0 _. apply host_built_same; [by destruct r|].
    intros. apply cache_entry_set_registry.
  - intros w0 (H1 & H2 & H3). split; [|split]; [done..|].
    intros s b v. unfold cache_entry. simpl.
    destruct (decide (s < length (scopes w0))) as [Hlt|Hge].
    + rewrite lookup_app_l by done. apply H3.
    + rewrite lookup_app_r by lia.
      by destruct (s - length (scopes w0)) as [|[|n]].
  - intros l w0. by apply host_built_same.
  - intros r w0. apply host_built_same; [by destruct r|].
    intros. apply cache_entry_set_registry.
Qed.

Lemma host_built_add_binding base tagged w :
  synthesized (factory tagged) = true →
  (∀ f v, tagged = Singleton f v → v = VUndefined) →
  host_built w → host_built (add_binding base tagged w).
Proof.
  intros Hsyn Hstore (H1 & H2 & H3). split; [|split]; [| |done].
  - intros b t. simpl. intros [Hb|[_ Hb]]%lookup_app_Some; [by eapply H1|].
    destruct (b - length (bindings w)) as [|n]; [|done]. by injection Hb as <-.
  - intros b f v. simpl. intros [Hb|[_ Hb]]%lookup_app_Some; [by eapply H2|].
    destruct (b - length (bindings w)) as [|n]; [|done].
    injection Hb as Hb. left. by eapply Hstore.
Qed.

Lemma synthesized_createServiceFactory base service :
  synthesized (createServiceFactory base service) = true.
Proof. by destruct service. Qed.

Lemma reachable_host_built classes w : reachable classes w → host_built w.
Proof.
  induction 1 as [|w base service _ IH|w base service _ IH|w base service _ IH
                 |w w' _ IH Hused].
  - split; [|split]; simpl; try done.
  - apply host_built_add_binding; [apply synthesized_createServiceFactory| |done].
    by intros f v [= _ <-].
  - apply host_built_add_binding; [apply synthesized_createServiceFactory| |done].
    done.
  - apply host_built_add_binding; [apply synthesized_createServiceFactory| |done].
    done.
  - by eapply host_built_used.
Qed.

Lemma well_formed_getTag_None w k :
  well_formed w → getTag w k = None → services w !! k = None.
Proof.
  intros [Hk _] Hnone. destruct (services w !! k) as [b|] eqn:Hb; [|done].
  destruct (lookup_lt_is_Some_2 (bindings w) b (Hk _ _ Hb)) as [t Ht].
  assert (getTag w k = Some (b, t)) as H by by apply getTag_Some.
  congruence.
Qed.

Lemma dispatch_object classes rg rr self cb b t w v w' :
  host_built w →
  bindings w !! b = Some t →
  getFromTaggedService classes rg rr self (b, t) cb w = Ok v w' →
  is_object v = true.
Proof.
  intros (H1 & H2 & _) Hb. unfold getFromTaggedService. simpl.
  pose proof (H1 _ _ Hb) as Hsyn. destruct t as [f|f|f store]; simpl in *.
  - done.
  - by apply invoke_synthesized_object.
  - destruct (truthy store) eqn:Hstore.
    + intros [= <- _]. destruct (H2 _ _ _ Hb) as [->|?]; done.
    + destruct (invoke _ _ _ _ _ _ _) as [v1 w1| |] eqn:Hinv; simpl; try done.
      intros [= <- _]. by eapply invoke_synthesized_object.
Qed.

(** X7: On a [ServiceHost], what [get] returns is an object, or it is
    [undefined] and the key is not registered: a registered key never
    resolves to [undefined] or to any other falsy value, on the host or in a
    scope. *)
Theorem host_resolves_objects classes w fuel c k v w' :
  reachable classes w →
  get classes fuel c k w = Ok v w' →
  is_object v = true ∨ (v = VUndefined ∧ services w !! k = None).
Proof.
  intros Hreach Hget.
  pose proof (reachable_well_formed _ _ Hreach) as Hwf.
  pose proof (reachable_host_built _ _ Hreach) as Hbuilt.
  destruct fuel as [|n]; [done|].
  assert (∀ v w', collection_get classes (get classes n) (run classes n) CHost k w
                  = Ok v w' →
                  is_object v = true ∨ (v = VUndefined ∧ services w !! k = None))
    as Hcoll.
  { intros v0 w0. unfold collection_get.
    destruct (getTag w k) as [[b t]|] eqn:Hk.
    - intros H. left. apply getTag_Some in Hk as [_ Hb].
      by eapply dispatch_object.
    - intros [= <- _]. right. split; [done|]. by apply well_formed_getTag_None. }
  assert (∀ v w', host_get classes (get classes n) (run classes n) k w = Ok v w' →
                  is_object v = true ∨ (v = VUndefined ∧ services w !! k = None))
    as Hhost.
  { intros v0 w0. destruct k; simpl; try (intros [= <- _]; by left). apply Hcoll. }
  destruct c as [|s]; simpl in Hget; [by eapply Hhost|].
  assert (match getTag w k with
          | None => host_get classes (get classes n) (run classes n) k w
          | Some (b, Scoped f) =>
              let value := scope_cache w s b in
              if truthy value then Ok value w
              else
                bind (invoke classes (get classes n) (run classes n) f
                        (CScope s) (CScope s) w)
                  (λ newValue w, Ok newValue (set_cache s b newValue w))
          | Some tagged =>
              getFromTaggedService classes (get classes n) (run classes n)
                CHost tagged CHost w
          end = Ok v w' →
          is_object v = true ∨ (v = VUndefined ∧ services w !! k = None))
    as Hscope.
  { destruct (getTag w k) as [[b t]|] eqn:Hk; [|by apply Hhost].
    intros H. left. apply getTag_Some in Hk as [_ Hb].
    destruct t as [f|f|f store]; try by eapply dispatch_object.
    simpl in H. destruct (truthy _) eqn:Hc.
    - injection H as <- _. unfold scope_cache in *.
      destruct Hbuilt as (_ & _ & H3). specialize (H3 s b).
      unfold cache_entry in H3. destruct (scopes w !! s ≫= _); [eauto|done].
    - destruct (invoke _ _ _ _ _ _ _) as [v1 w1| |] eqn:Hinv; simpl in H;
        try done.
      injection H as <- _. eapply invoke_synthesized_object; [|exact Hinv].
      destruct Hbuilt as (H1 & _). exact (H1 _ _ Hb). }
  destruct k; try (by apply Hscope). injection Hget as <- _. by left.
Qed.

Lemma host_resolves_objects_witness :
  reachable sample_classes (addSingleton Logger (ServiceFun Logger) empty_world)
  ∧ ∃ w',
      get sample_classes 5 CHost Logger
        (addSingleton Logger (ServiceFun Logger) empty_world) = Ok (VObj 0) w'
      ∧ (is_object (VObj 0) = true
         ∨ (VObj 0 = VUndefined
            ∧ services (addSingleton Logger (ServiceFun Logger) empty_world)
                !! Logger = None)).
Proof.
  assert (reachable sample_classes
            (addSingleton Logger (ServiceFun Logger) empty_world)) as Hreach
    by (apply reachable_addSingleton, reachable_empty).
  split; [done|]. eexists.
  assert (get sample_classes 5 CHost Logger
            (addSingleton Logger (ServiceFun Logger) empty_world) = Ok (VObj 0) _)
    as Hget by (vm_compute; reflexivity).
  split; [exact Hget|].
  exact (host_resolves_objects sample_classes _ 5 CHost Logger _ _ Hreach Hget).
Defined.

(** ** Constants registered as services *)

Lemma invoke_constant classes rg rr v self cb w :
  invoke classes rg rr (FactoryVal v) self cb w = registerIfDisposable v cb w.
Proof. done. Qed.

Lemma registerIfDisposable_primitive v cb w :
  is_object v = false →
  registerIfDisposable v cb w = Err (TypeError "Cannot use 'in' operator") w.
Proof. by destruct v. Qed.

(** X8: A primitive registered as the service itself, under a key other
    than the container's own classes, can never be resolved: under every
    lifetime each resolution raises the [TypeError] of applying [in] to a
    primitive and changes nothing, so a singleton slot or a scope cache
    never comes to hold it (for the scoped lifetime, on a container that was
    set up through the registration methods and then used). *)
Theorem primitive_constant_never_resolves classes fuel k v w :
  self_key k = false →
  is_object v = false →
  (∀ c, get classes (S fuel) c k (addSingleton k (ServiceVal v) w)
        = Err (TypeError "Cannot use 'in' operator")
            (addSingleton k (ServiceVal v) w))
  ∧ (∀ c, get classes (S fuel) c k (addTransient k (ServiceVal v) w)
          = Err (TypeError "Cannot use 'in' operator")
              (addTransient k (ServiceVal v) w))
  ∧ (reachable classes w →
     ∀ s, get classes (S fuel) (CScope s) k (addScoped k (ServiceVal v) w)
          = Err (TypeError "Cannot use 'in' operator")
              (addScoped k (ServiceVal v) w)).
Proof.
  intros Hself Hv. split; [|split].
  - intros c.
    rewrite (get_nonscoped_dispatch _ _ _ _ (length (bindings w))
               (Singleton (FactoryVal v) VUndefined)); try done.
    + unfold getFromTaggedService. simpl.
      by rewrite registerIfDisposable_primitive.
    + apply getTag_add_binding_same.
  - intros c.
    rewrite (get_nonscoped_dispatch _ _ _ _ (length (bindings w))
               (Transient (FactoryVal v))); try done.
    + unfold getFromTaggedService. simpl.
      by rewrite registerIfDisposable_primitive.
    + apply getTag_add_binding_same.
  - intros Hwf%reachable_well_formed s. simpl.
    rewrite (scope_get_scoped _ _ _ _ _ (length (bindings w)) (FactoryVal v)).
    + assert (scope_cache (addScoped k (ServiceVal v) w) s (length (bindings w))
              = VUndefined) as -> by exact (well_formed_next_binding_uncached w s Hwf).
      simpl. by rewrite registerIfDisposable_primitive.
    + by destruct k.
    + apply getTag_add_binding_same.
Qed.

Lemma primitive_constant_never_resolves_witness :
  (self_key zero = false ∧ is_object (VNum 42) = false)
  ∧ get sample_classes 1 CHost zero
      (addSingleton zero (ServiceVal (VNum 42)) empty_world)
    = Err (TypeError "Cannot use 'in' operator")
        (addSingleton zero (ServiceVal (VNum 42)) empty_world).
Proof.
  split; [done|].
  by apply (primitive_constant_never_resolves sample_classes 0 zero (VNum 42)
              empty_world).
Defined.

(** X9: On a container set up through the registration methods and then
    used, every scope that resolves a key, other than [ServiceCollection]
    (which a scope answers with itself), after it has been registered as
    scoped anew calls the new factory, whatever the scope had cached for the
    key: the cache is keyed by the binding object, and the new one has no
    entry anywhere. *)
Theorem scoped_reregistration_reaches_every_scope classes fuel s k service w :
  reachable classes w →
  k ≠ KServiceCollection →
  get classes (S fuel) (CScope s) k (addScoped k service w)
  = bind (invoke classes (get classes fuel) (run classes fuel)
            (createServiceFactory k service) (CScope s) (CScope s)
            (addScoped k service w))
      (λ v w1, Ok v (set_cache s (length (bindings w)) v w1)).
Proof.
  intros Hwf%reachable_well_formed Hne. simpl.
  rewrite (scope_get_scoped _ _ _ _ _ (length (bindings w))
             (createServiceFactory k service)); try done.
  - assert (scope_cache (addScoped k service w) s (length (bindings w))
            = VUndefined) as -> by exact (well_formed_next_binding_uncached w s Hwf).
    done.
  - apply getTag_add_binding_same.
Qed.

Lemma scoped_reregistration_reaches_every_scope_witness :
  let w := state_after empty_world
             (get sample_classes 5 (CScope 0) RequestCtx
                (createScope
                   (addScoped RequestCtx (ServiceFun RequestCtx) empty_world)).2) in
  (reachable sample_classes w ∧ RequestCtx ≠ KServiceCollection)
  ∧ get sample_classes 1 (CScope 0) RequestCtx w = Ok (VObj 0) w
  ∧ ∃ w', get sample_classes 5 (CScope 0) RequestCtx
            (addScoped RequestCtx (ServiceFun RequestCtx) w) = Ok (VObj 1) w'.
Proof.
  intros w.
  assert (reachable sample_classes w) as Hreach.
  { apply (reachable_used sample_classes
             (addScoped RequestCtx (ServiceFun RequestCtx) empty_world)).
    - apply reachable_addScoped, reachable_empty.
    - apply used_createScope.
      eapply (used_get _ _ _ _ 5 (CScope 0) RequestCtx); [|apply used_refl].
      vm_compute. reflexivity. }
  split; [done|]. split; [vm_compute; reflexivity|].
  eexists.
  rewrite (scoped_reregistration_reaches_every_scope sample_classes 4 0 RequestCtx
             (ServiceFun RequestCtx) w Hreach); [|done].
  vm_compute. reflexivity.
Defined.

Lemma is_object_truthy v : is_object v = true → truthy v = true.
Proof. by destruct v. Qed.

(** X10: An object registered as the service itself, under a key other than
    the container's own classes, is the instance: a resolution returns that
    very object and builds nothing, and under the singleton lifetime every
    context returns it from then on. *)
Theorem constant_object_is_the_instance classes fuel c k v w :
  self_key k = false →
  is_object v = true →
  (∃ w', get classes (S fuel) c k (addSingleton k (ServiceVal v) w) = Ok v w'
         ∧ heap w' = heap w
         ∧ ∀ c2 fuel2, get classes (S fuel2) c2 k w' = Ok v w')
  ∧ (∃ w', get classes (S fuel) c k (addTransient k (ServiceVal v) w) = Ok v w'
           ∧ heap w' = heap w).
Proof.
  intros Hself Hv. split.
  - destruct (registerIfDisposable_object v CHost
                (addSingleton k (ServiceVal v) w) Hv) as [w1 Hreg].
    apply registerIfDisposable_Ok in Hreg as Hok.
    destruct Hok as (_ & _ & Hheap & Hw1).
    exists (set_store (length (bindings w)) v w1). split; [|split].
    + rewrite (get_nonscoped_dispatch _ _ _ _ (length (bindings w))
                 (Singleton (FactoryVal v) VUndefined)); try done;
        [|apply getTag_add_binding_same].
      unfold getFromTaggedService. simpl. by rewrite Hreg.
    + done.
    + intros c2 fuel2.
      rewrite (get_nonscoped_dispatch _ _ _ _ (length (bindings w))
                 (Singleton (FactoryVal v) v)); try done.
      * unfold getFromTaggedService. simpl. by rewrite is_object_truthy.
      * eapply getTag_set_store.
        destruct Hw1 as [-> | ->]; apply getTag_add_binding_same.
  - destruct (registerIfDisposable_object v CHost
                (addTransient k (ServiceVal v) w) Hv) as [w1 Hreg].
    exists w1. split.
    + rewrite (get_nonscoped_dispatch _ _ _ _ (length (bindings w))
                 (Transient (FactoryVal v))); try done.
      apply getTag_add_binding_same.
    + by apply registerIfDisposable_Ok in Hreg as (_ & _ & ? & _).
Qed.

Lemma constant_object_is_the_instance_witness :
  (self_key Logger = false ∧ is_object (VObj 3) = true)
  ∧ ∃ w', get sample_classes 1 (CScope 0) Logger
            (addSingleton Logger (ServiceVal (VObj 3)) empty_world) = Ok (VObj 3) w'
          ∧ get sample_classes 1 CHost Logger w' = Ok (VObj 3) w'.
Proof.
  split; [done|].
  destruct (constant_object_is_the_instance sample_classes 0 (CScope 0) Logger
              (VObj 3) empty_world eq_refl eq_refl) as [(w' & Hget & _ & Hagain) _].
  exists w'. split; [exact Hget|]. apply Hagain.
Defined.

(** X11: A disposable object registered as a transient constant, under a key
    other than the container's own classes, is handed to the registration
    callback by every resolution: each one appends the same object to the
    host's registry once more, so that a teardown releases it once per
    resolution made. *)
Theorem transient_constant_registers_every_time classes fuel c k b v w :
  getTag w k = Some (b, Transient (FactoryVal v)) →
  self_key k = false →
  disposable w v = Some true →
  get classes (S fuel) c k w = Ok v (register CHost v w)
  ∧ registry (register CHost v w) CHost = registry w CHost ++ [v]
  ∧ getTag (register CHost v w) k = Some (b, Transient (FactoryVal v))
  ∧ disposable (register CHost v w) v = Some true.
Proof.
  intros Hk Hself Hd. split; [|split; [done|split; [done|]]].
  - rewrite (get_nonscoped_dispatch _ _ _ _ b (Transient (FactoryVal v)));
      try done.
    unfold getFromTaggedService. simpl. unfold registerIfDisposable.
    by rewrite Hd.
  - by rewrite (disposable_heap w).
Qed.

Lemma transient_constant_registers_every_time_witness :
  let w0 := state_after empty_world
              (get sample_classes 5 CHost Logger
                 (addSingleton Logger (ServiceFun Logger) empty_world)) in
  let w := addTransient Service (ServiceVal (VObj 0)) w0 in
  (getTag w Service = Some (1, Transient (FactoryVal (VObj 0)))
   ∧ self_key Service = false
   ∧ disposable w (VObj 0) = Some true)
  ∧ registry w CHost = [VObj 0]
  ∧ ∃ w1 w2 w3,
      get sample_classes 1 CHost Service w = Ok (VObj 0) w1
      ∧ get sample_classes 1 CHost Service w1 = Ok (VObj 0) w2
      ∧ registry w2 CHost = [VObj 0; VObj 0; VObj 0]
      ∧ asyncDispose 1 CHost w2 = Ok () w3
      ∧ released w3
        = [(VObj 0, AsyncRelease); (VObj 0, SyncRelease);
           (VObj 0, AsyncRelease); (VObj 0, SyncRelease);
           (VObj 0, AsyncRelease); (VObj 0, SyncRelease)].
Proof.
  intros w0 w.
  assert (getTag w Service = Some (1, Transient (FactoryVal (VObj 0)))) as H1
    by (vm_compute; reflexivity).
  assert (disposable w (VObj 0) = Some true) as H2 by (vm_compute; reflexivity).
  split; [done|]. split; [vm_compute; reflexivity|].
  destruct (transient_constant_registers_every_time sample_classes 0 CHost Service
              1 (VObj 0) w H1 eq_refl H2) as (Hget1 & _ & H1' & H2').
  destruct (transient_constant_registers_every_time sample_classes 0 CHost Service
              1 (VObj 0) _ H1' eq_refl H2') as (Hget2 & _ & _ & _).
  eexists _, _, _. split; [exact Hget1|]. split; [exact Hget2|].
  split; [vm_compute; reflexivity|]. split.
  - vm_compute. reflexivity.
  - vm_compute. reflexivity.
Defined.

Lemma cache_entry_set_cache_cases s b v w s' b' v' :
  cache_entry (set_cache s b v w) s' b' = Some v' →
  (s' = s ∧ b' = b ∧ v' = v) ∨ cache_entry w s' b' = Some v'.
Proof.
  unfold cache_entry. simpl. destruct (decide (s = s')) as [->|Hs].
  - rewrite list_lookup_alter_eq. destruct (scopes w !! s') as [sc|]; simpl.
    + destruct (decide (b = b')) as [->|Hb].
      * rewrite lookup_insert_eq. intros [= <-]. by left.
      * rewrite lookup_insert_ne by done. by right.
    + done.
  - rewrite list_lookup_alter_ne by done. by right.
Qed.

(** While a binding object is a scoped constant, the only value a scope
    comes to cache under it is the constant. *)
Lemma used_caches_constant classes b v w w' :
  used classes w w' →
  same_bindings w w'
  ∧ (bindings w !! b = Some (Scoped (FactoryVal v)) →
     ∀ s x, cache_entry w' s b = Some x → cache_entry w s b = Some x ∨ x = v).
Proof.
  apply (used_frames classes
           (λ w w', same_bindings w w'
                    ∧ (bindings w !! b = Some (Scoped (FactoryVal v)) →
                       ∀ s x, cache_entry w' s b = Some x →
                              cache_entry w s b = Some x ∨ x = v))).
  - intros w0. split; [done|]. intros _ s x H. by left.
  - intros w1 w2 w3 [Hs1 H1] [Hs2 H2]. split.
    { destruct Hs1, Hs2. split; congruence. }
    intros Hb s x H3.
    assert (bindings w2 !! b = Some (Scoped (FactoryVal v))) as Hb2.
    { destruct Hs1 as [_ Hsh].
      assert ((shape <$> bindings w2) !! b
              = Some (shape (Scoped (FactoryVal v)))) as H
        by by rewrite Hsh, list_lookup_fmap, Hb.
      rewrite list_lookup_fmap in H.
      destruct (bindings w2 !! b) as [[?|?|? ?]|]; simpl in H; try done.
      by injection H as ->. }
    destruct (H2 Hb2 s x H3) as [H|H]; [|by right]. by apply H1.
  - intros c0 w0. split; [done|]. intros _ s x H. by left.
  - intros t key x w0. split; [by destruct t|]. intros _ s y H.
    left. by destruct t.
  - intros b0 f store x w0 w1 _ _ _ [[Hs Hsh] Hc]. split; [|done].
    split; [done|]. by rewrite shape_set_store.
  - intros s0 b0 f x w0 w1 _ Hb0 _ (rg & rr & self & cb & Hinv) [Hsame Hc].
    split; [done|]. intros Hb s y [(-> & -> & ->)|H]%cache_entry_set_cache_cases.
    + right. rewrite Hb in Hb0. injection Hb0 as <-. simpl in Hinv.
      by apply registerIfDisposable_Ok in Hinv as (? & _).
    + by apply Hc.
  - intros r x w0 _. split; [by destruct r|]. intros _ s y. unfold register.
    rewrite cache_entry_set_registry. by left.
  - intros w0. split; [done|]. intros _ s x. unfold cache_entry. simpl.
    destruct (decide (s < length (scopes w0))) as [Hlt|Hge].
    + rewrite lookup_app_l by done. by left.
    + rewrite lookup_app_r by lia.
      by destruct (s - length (scopes w0)) as [|[|n]].
  - intros l w0. split; [done|]. intros _ s x H. by left.
  - intros r w0. split; [by destruct r|]. intros _ s y.
    rewrite cache_entry_set_registry. by left.
Qed.

(** X12: An object registered as a scoped constant, under a key other than
    [ServiceCollection] (which a scope answers with itself), is one instance
    for all scopes: on a container set up through the registration methods
    and then used, after the registration and whatever use is made of the
    container, every scope resolves the key to that same object.  The scoped
    lifetime separates scopes only when the factory builds. *)
Theorem scoped_constant_is_one_instance classes k v w w1 :
  reachable classes w →
  k ≠ KServiceCollection →
  is_object v = true →
  used classes (addScoped k (ServiceVal v) w) w1 →
  ∀ s fuel, ∃ w2, get classes (S fuel) (CScope s) k w1 = Ok v w2.
Proof.
  intros Hwf%reachable_well_formed Hne Hv Hused s fuel.
  set (b := length (bindings w)).
  destruct (used_caches_constant classes b v _ _ Hused) as [Hsame Hcache].
  assert (getTag (addScoped k (ServiceVal v) w) k
          = Some (b, Scoped (FactoryVal v))) as Hk
    by apply getTag_add_binding_same.
  apply getTag_Some in Hk as Hkb. destruct Hkb as [_ Hb].
  specialize (Hcache Hb s).
  destruct (getTag_same_bindings _ _ _ _ _ Hsame Hk) as (t' & Hk1 & Hshape).
  destruct t' as [f'| |]; try discriminate. injection Hshape as ->.
  simpl. rewrite (scope_get_scoped _ _ _ _ _ b (FactoryVal v)) by done.
  unfold scope_cache. fold (cache_entry w1 s b).
  destruct (cache_entry w1 s b) as [x|] eqn:Hx; simpl.
  - destruct (Hcache x eq_refl) as [Hold| ->].
    + assert (is_Some (cache_entry w s b)) as Hsome by by eexists.
      destruct Hwf as [_ Hc]. specialize (Hc s b Hsome). subst b. lia.
    + rewrite is_object_truthy by done. by eexists.
  - destruct (registerIfDisposable_object v (CScope s) w1 Hv) as [w2 Hreg].
    rewrite Hreg. by eexists.
Qed.

Lemma scoped_constant_is_one_instance_witness :
  let w := (createScope (createScope empty_world).2).2 in
  (reachable sample_classes w
   ∧ RequestCtx ≠ KServiceCollection
   ∧ is_object (VObj 9) = true)
  ∧ ∃ w1 w2,
      get sample_classes 1 (CScope 0) RequestCtx
        (addScoped RequestCtx (ServiceVal (VObj 9)) w) = Ok (VObj 9) w1
      ∧ get sample_classes 1 (CScope 1) RequestCtx w1 = Ok (VObj 9) w2.
Proof.
  intros w.
  assert (reachable sample_classes w) as Hreach.
  { apply (reachable_used sample_classes empty_world); [apply reachable_empty|].
    apply used_createScope, used_createScope, used_refl. }
  split; [done|].
  destruct (scoped_constant_is_one_instance sample_classes RequestCtx (VObj 9) w _
              Hreach ltac:(done) eq_refl (used_refl _ _) 0 0) as [w1 Hget1].
  exists w1.
  assert (used sample_classes (addScoped RequestCtx (ServiceVal (VObj 9)) w) w1)
    as Hused.
  { eapply (used_get _ _ _ _ 1 (CScope 0) RequestCtx); [|apply used_refl].
    by rewrite Hget1. }
  destruct (scoped_constant_is_one_instance sample_classes RequestCtx (VObj 9) w _
              Hreach ltac:(done) eq_refl Hused 1 0) as [w2 Hget2].
  by exists w2.
Defined.

(** ** Callables: classes, arrow functions, functions *)

(** X13: For a class registered as the service, an error raised while it is
    built (by its constructor or while its properties are injected) never
    reaches the caller: the fallback calls the class as a function, and what
    the caller gets is the [TypeError] of that call. *)
Theorem class_error_is_replaced classes rg rr f collection cb w e w1 :
  fn (classes f) = None →
  inject classes rg rr collection cb f [VCtx collection] w = Err e w1 →
  invoke classes rg rr (FactoryFun f) collection cb w
  = Err (TypeError "Class constructor cannot be invoked without 'new'") w1.
Proof.
  intros Hfn Hinj. simpl. rewrite Hinj. simpl. unfold call. by rewrite Hfn.
Qed.

Lemma class_error_is_replaced_witness :
  let w := addSingleton Repo (ServiceFun Repo) empty_world in
  (fn (sample_classes Repo) = None
   ∧ ∃ w1,
       inject sample_classes (get sample_classes 3) (run sample_classes 3)
         CHost CHost Repo [VCtx CHost] w = Err (Thrown (VStr "boom")) w1
       ∧ invoke sample_classes (get sample_classes 3) (run sample_classes 3)
           (FactoryFun Repo) CHost CHost w
         = Err (TypeError "Class constructor cannot be invoked without 'new'") w1).
Proof.
  intros w. split; [done|]. eexists.
  assert (inject sample_classes (get sample_classes 3) (run sample_classes 3)
            CHost CHost Repo [VCtx CHost] w = Err (Thrown (VStr "boom")) _) as Hinj
    by (vm_compute; reflexivity).
  split; [exact Hinj|].
  exact (class_error_is_replaced sample_classes _ _ Repo CHost CHost w _ _
           eq_refl Hinj).
Defined.


(** X14: For an arrow function registered as the service, the injection attempt
    raises before anything is built (an arrow function has no prototype to
    read metadata from), so the factory is the plain call of the function:
    its body runs with the resolution context as the only argument, in the
    state the resolution started from, and what it returns goes through the
    disposability test. *)
Theorem arrow_function_is_called classes rg rr f body collection cb w :
  inject_metadata (classes f) = None →
  fn (classes f) = Some body →
  invoke classes rg rr (FactoryFun f) collection cb w
  = bind (rr collection cb (body [VCtx collection]) w)
      (λ v w1, registerIfDisposable v cb w1).
Proof. intros Hm Hf. simpl. unfold inject, call. by rewrite Hm, Hf. Qed.

Lemma arrow_function_is_called_witness :
  let w := (createScope empty_world).2 in
  inject_metadata (sample_classes itself) = None
  ∧ invoke sample_classes (get sample_classes 3) (run sample_classes 3)
      (FactoryFun itself) (CScope 0) (CScope 0) w
    = Ok (VCtx (CScope 0)) (register (CScope 0) (VCtx (CScope 0)) w)
  ∧ invoke sample_classes (get sample_classes 3) (run sample_classes 3)
      (FactoryFun itself) CHost CHost w
    = Ok (VCtx CHost) (register CHost (VCtx CHost) w).
Proof.
  intros w. split; [done|]. split.
  - rewrite (arrow_function_is_called sample_classes _ _ itself
               (λ args, Ret (default VUndefined (head args))));
      [|reflexivity|reflexivity].
    vm_compute. reflexivity.
  - rewrite (arrow_function_is_called sample_classes _ _ itself
               (λ args, Ret (default VUndefined (head args))));
      [|reflexivity|reflexivity].
    vm_compute. reflexivity.
Defined.

(** X15: For a function that can be constructed, the injection path wins: the
    function runs as a constructor, and when it returns a primitive the
    primitive is dropped and the service is the fresh object [new] made. *)
Theorem returned_primitive_is_dropped classes rg rr f body collection cb w r w1 :
  inject_metadata (classes f) = Some [] →
  ctor (classes f) = Some body →
  rr collection cb (body (VObj (length (heap w))) [VCtx collection])
    (alloc (instance_caps (classes f)) w).2 = Ok r w1 →
  is_object r = false →
  ∃ w2, invoke classes rg rr (FactoryFun f) collection cb w
        = Ok (VObj (length (heap w))) w2.
Proof.
  intros Hm Hc Hrun Hr. simpl. unfold inject, construct. rewrite Hm, Hc. simpl.
  simpl in Hrun. rewrite Hrun. simpl. rewrite Hr.
  destruct (registerIfDisposable_object (VObj (length (heap w))) cb w1 eq_refl)
    as [w2 Hreg].
  rewrite Hreg. by exists w2.
Qed.

Lemma returned_primitive_is_dropped_witness :
  (inject_metadata (sample_classes RequestCtx) = Some []
   ∧ ctor (sample_classes RequestCtx) = Some (λ _ _, Ret VUndefined)
   ∧ run sample_classes 3 CHost CHost (Ret VUndefined)
       (alloc (instance_caps (sample_classes RequestCtx)) empty_world).2
     = Ok VUndefined (alloc (instance_caps (sample_classes RequestCtx)) empty_world).2
   ∧ is_object VUndefined = false)
  ∧ ∃ w2, invoke sample_classes (get sample_classes 3) (run sample_classes 3)
            (FactoryFun RequestCtx) CHost CHost empty_world = Ok (VObj 0) w2.
Proof.
  split; [done|].
  exact (returned_primitive_is_dropped sample_classes (get sample_classes 3)
           (run sample_classes 3) RequestCtx _ CHost CHost empty_world VUndefined _
           eq_refl eq_refl eq_refl eq_refl).
Defined.

(** ** Injection *)

(** X16: [inject] never returns a primitive, and what it returns is decided by
    the constructor: the constructor body ran on the fresh object [new] made,
    with the arguments given, and the result is the object the body returned
    or, when the body returned a primitive, that fresh object. *)
Theorem inject_returns_an_object classes fuel c service props w v w' :
  inject_top classes fuel c service props w = Ok v w' →
  is_object v = true
  ∧ ∃ body r w1,
      ctor (classes service) = Some body
      ∧ run classes fuel c c (body (VObj (length (heap w))) props)
          (alloc (instance_caps (classes service)) w).2 = Ok r w1
      ∧ v = if is_object r then r else VObj (length (heap w)).
Proof.
  intros H. split; [by eapply inject_object|].
  unfold inject_top, inject in H.
  destruct (inject_metadata (classes service)) as [meta|]; [|done].
  unfold construct in H. destruct (ctor (classes service)) as [body|]; [|done].
  simpl in H.
  destruct (run classes fuel c c _ _) as [r w1| |] eqn:Hr; simpl in H; try done.
  apply inject_props_value in H. by exists body, r, w1.
Qed.

Lemma inject_returns_an_object_witness :
  (∃ w', inject_top sample_classes 3 CHost RequestCtx [] empty_world
         = Ok (VObj 0) w')
  ∧ (∃ w' body w1,
       inject_top wrapper_classes 3 CHost Wrapper [] empty_world = Ok (VObj 1) w'
       ∧ ctor (wrapper_classes Wrapper) = Some body
       ∧ run wrapper_classes 3 CHost CHost (body (VObj 0) [])
           (alloc (instance_caps (wrapper_classes Wrapper)) empty_world).2
         = Ok (VObj 1) w1).
Proof.
  split.
  - eexists. vm_compute. reflexivity.
  - assert (inject_top wrapper_classes 3 CHost Wrapper [] empty_world
            = Ok (VObj 1)
                (state_after empty_world
                   (inject_top wrapper_classes 3 CHost Wrapper [] empty_world)))
      as H by (vm_compute; reflexivity).
    destruct (inject_returns_an_object wrapper_classes 3 CHost Wrapper []
                _ _ _ H) as (_ & body & r & w1 & Hb & Hr & Hv).
    eexists _, body, w1. split; [exact H|]. split; [exact Hb|].
    destruct (is_object r); [rewrite Hv; exact Hr|discriminate Hv].
Defined.

Lemma construct_same_bindings classes fuel self cb service props w w' :
  final (construct classes (run classes fuel) self cb service props w) = Some w' →
  same_bindings w w'.
Proof.
  apply (construct_frames classes everywhere same_bindings); try done.
  - intros w1 w2 w3 [H1 H2] [H3 H4]. split; congruence.
  - intros self0 cb0 c0 w0 _ _.
    apply (get_run_frames classes everywhere same_bindings); try done.
    + intros w1 w2 w3 [H1 H2] [H3 H4]. split; congruence.
    + intros t key v w1. by destruct t.
    + intros b f0 store v w1 w2 _ _ _ [H1 H2]. split; [done|].
      by rewrite shape_set_store.
    + intros r v w1 _. by destruct r.
Qed.

(** The injected properties, all assigned [undefined]. *)
Lemma inject_props_unregistered classes fuel self value meta w :
  Forall (λ m, services w !! m.2 = None ∧ self_key m.2 = false) meta →
  inject_props (get classes (S fuel)) self value meta w
  = Ok value (foldl (λ w0 m, set_prop value m.1 VUndefined w0) w meta).
Proof.
  intros Hmeta. revert w Hmeta.
  induction meta as [|[key dep] rest IH]; intros w Hmeta; [done|].
  apply Forall_cons in Hmeta as [[Hk Hself] Hrest]. simpl in Hk, Hself.
  cbn [inject_props].
  assert (get classes (S fuel) self dep w = Ok VUndefined w) as ->.
  { apply getTag_unregistered in Hk. destruct dep; try discriminate.
    destruct self; simpl; unfold collection_get; by rewrite Hk. }
  simpl. apply IH. eapply Forall_impl; [exact Hrest|].
  intros [key' dep'] H. by destruct value.
Qed.

Lemma foldl_set_prop_lookup o (meta : list (string * Key)) w p :
  o < length (heap w) →
  p ∈ meta.*1 →
  heap (foldl (λ w0 m, set_prop (VObj o) m.1 VUndefined w0) w meta) !! o
    ≫= (λ ob, obj_props ob !! p) = Some VUndefined.
Proof.
  assert (∀ meta w x,
            heap w !! o ≫= (λ ob, obj_props ob !! p) = Some x →
            ∃ y, heap (foldl (λ w0 (m : string * Key),
                                set_prop (VObj o) m.1 VUndefined w0) w meta) !! o
                   ≫= (λ ob, obj_props ob !! p) = Some y
                 ∧ (x = VUndefined → y = VUndefined)) as Hkeep.
  { clear. intros meta. induction meta as [|[key dep] rest IH]; intros w x Hx.
    - by exists x.
    - simpl. destruct (heap w !! o) as [ob|] eqn:Ho; [|done]. simpl in Hx.
      destruct (decide (key = p)) as [->|Hne].
      + destruct (IH (set_prop (VObj o) p VUndefined w) VUndefined)
          as (y & Hy & Hyu).
        { simpl. rewrite list_lookup_alter_eq, Ho. simpl. apply lookup_insert_eq. }
        exists y. split; [done|]. auto.
      + apply (IH _ x). simpl. rewrite list_lookup_alter_eq, Ho. simpl.
        by rewrite lookup_insert_ne. }
  intros Ho. revert w Ho.
  induction meta as [|[key dep] rest IH]; intros w Ho Hp.
  - by apply elem_of_nil in Hp.
  - simpl in Hp. apply elem_of_cons in Hp. simpl.
    destruct (lookup_lt_is_Some_2 _ _ Ho) as [ob Hob].
    destruct (decide (p = key)) as [->|Hne].
    + destruct (Hkeep rest (set_prop (VObj o) key VUndefined w) VUndefined)
        as (y & Hy & Hyu).
      { simpl. rewrite list_lookup_alter_eq, Hob. simpl. apply lookup_insert_eq. }
      specialize (Hyu eq_refl). subst y. exact Hy.
    + destruct Hp as [?|Hp]; [done|]. apply IH; [|done].
      simpl. by rewrite length_alter.
Qed.

(** X17: Property injection never fails on a missing dependency: when the
    dependencies named by the metadata are not registered, [inject] returns
    the constructed object with every injected property set to [undefined],
    and raises nothing. *)
Theorem inject_unregistered_dependencies classes fuel c service props meta w o w1 :
  inject_metadata (classes service) = Some meta →
  Forall (λ m, services w !! m.2 = None ∧ self_key m.2 = false) meta →
  construct classes (run classes (S fuel)) c c service props w = Ok (VObj o) w1 →
  o < length (heap w1) →
  ∃ w', inject_top classes (S fuel) c service props w = Ok (VObj o) w'
        ∧ ∀ p, p ∈ meta.*1 →
               heap w' !! o ≫= (λ ob, obj_props ob !! p) = Some VUndefined.
Proof.
  intros Hm Hmeta Hc Ho. unfold inject_top, inject. rewrite Hm, Hc. cbn [bind].
  assert (same_bindings w w1) as [Hs _].
  { eapply construct_same_bindings. by rewrite Hc. }
  rewrite inject_props_unregistered.
  - eexists. split; [done|]. intros p Hp. by apply foldl_set_prop_lookup.
  - eapply Forall_impl; [exact Hmeta|]. intros m. by rewrite Hs.
Qed.

Lemma inject_unregistered_dependencies_witness :
  (inject_metadata (sample_classes Service) = Some [("logger"%string, Logger)]
   ∧ Forall (λ m, services empty_world !! m.2 = None ∧ self_key m.2 = false)
       [("logger"%string, Logger)]
   ∧ construct sample_classes (run sample_classes 2) CHost CHost Service []
       empty_world
     = Ok (VObj 0) (alloc no_caps empty_world).2
   ∧ 0 < length (heap (alloc no_caps empty_world).2))
  ∧ ∃ w', inject_top sample_classes 2 CHost Service [] empty_world = Ok (VObj 0) w'
          ∧ heap w' !! 0 ≫= (λ ob, obj_props ob !! "logger"%string)
            = Some VUndefined.
Proof.
  assert (Forall (λ m, services empty_world !! m.2 = None ∧ self_key m.2 = false)
            [("logger"%string, Logger)]) as Hmeta by (repeat constructor).
  assert (0 < length (heap (alloc no_caps empty_world).2)) as Hlen
    by (simpl; lia).
  split; [done|].
  destruct (inject_unregistered_dependencies sample_classes 1 CHost Service []
              [("logger"%string, Logger)] empty_world 0
              (alloc no_caps empty_world).2 eq_refl Hmeta eq_refl Hlen)
    as (w' & Hinj & Hprops).
  exists w'. split; [exact Hinj|]. apply Hprops. set_solver.
Defined.

(** ** More on teardown *)

(** X18: Teardown is fail-fast and does not recover: at the first release that
    raises, the teardown raises that error; the items before it have been
    released in order, the rest of that item's releases and every later
    item are skipped, and since the list was swapped away at the start they
    are never released: a later teardown finds nothing. *)
Theorem teardown_stops_at_first_failure fuel r w pre o ob post e kinds :
  registry w r = pre ++ VObj o :: post →
  Forall (λ item, releases_quietly w item = true) pre →
  heap w !! o = Some ob →
  first_failure (obj_caps ob) = Some (e, kinds) →
  ∃ w', asyncDispose (S fuel) r w = Err e w'
        ∧ released w'
          = released w ++ flat_map (releases_of w) pre
            ++ map (λ kind, (VObj o, kind)) kinds
        ∧ registry w' r = []
        ∧ ∀ fuel', asyncDispose (S fuel') r w' = Ok () w'.
Proof.
  intros Hreg Hpre Ho Hfail.
  set (w0 := set_registry r [] w).
  assert (heap w0 = heap w) as Hheap by by destruct r.
  set (log := released w ++ flat_map (releases_of w) pre
              ++ map (λ kind, (VObj o, kind)) kinds).
  exists (set_released log w0).
  assert (asyncDispose (S fuel) r w = Err e (set_released log w0)) as Hrun.
  { simpl. rewrite Hreg, dispose_loop_app. fold w0.
    rewrite <- (set_released_same w0) at 1.
    rewrite (dispose_loop_quiet _ _ w0).
    2:{ eapply Forall_impl; [exact Hpre|]. intros item. subst w0.
        by rewrite releases_quietly_set_registry. }
    subst log w0. rewrite (flat_map_ext _ _ (releases_of_set_registry r [] w)).
    rewrite released_set_registry. cbn [bind dispose_loop].
    unfold release_async, release_sync. cbn [heap set_released].
    rewrite Hheap, Ho. simpl. unfold first_failure in Hfail.
    destruct (obj_caps ob) as [[[|ea]|] [[|es]|]] eqn:Hcaps; simpl in *;
      try discriminate; injection Hfail as <- <-; simpl;
      rewrite ?Hheap, ?Ho; simpl; rewrite ?Hcaps; simpl;
      by rewrite <- ?app_assoc. }
  split; [exact Hrun|]. split; [done|].
  assert (registry (set_released log w0) r = []) as Hempty
    by apply registry_swapped.
  split; [exact Hempty|].
  intros fuel'. simpl. rewrite Hempty. simpl. by rewrite set_registry_empty.
Qed.

Lemma teardown_stops_at_first_failure_witness :
  ∃ w',
    registry flaky_in_the_middle CHost = [VObj 0] ++ VObj 1 :: [VObj 2]
    ∧ asyncDispose 1 CHost flaky_in_the_middle
      = Err (Thrown (VStr "stuck")) w'
    ∧ released w'
      = [(VObj 0, AsyncRelease); (VObj 1, AsyncRelease); (VObj 1, SyncRelease)]
    ∧ registry w' CHost = []
    ∧ asyncDispose 1 CHost w' = Ok () w'.
Proof.
  assert (registry flaky_in_the_middle CHost = [VObj 0] ++ VObj 1 :: [VObj 2])
    as Hreg by (vm_compute; reflexivity).
  destruct (teardown_stops_at_first_failure 0 CHost flaky_in_the_middle
              [VObj 0] 1
              (mkObj (mkCaps (Some Completes)
                        (Some (Raises (Thrown (VStr "stuck"))))) ∅)
              [VObj 2] (Thrown (VStr "stuck")) [AsyncRelease; SyncRelease])
    as (w' & Hrun & Hlog & Hempty & Hagain).
  - exact Hreg.
  - repeat constructor.
  - vm_compute. reflexivity.
  - reflexivity.
  - exists w'. split; [exact Hreg|]. split; [exact Hrun|].
    split; [rewrite Hlog; vm_compute; reflexivity|].
    split; [exact Hempty|exact (Hagain 0)].
Defined.

Lemma release_async_heap_object rec o w w' :
  final (release_async rec (VObj o) w) = Some w' →
  ∃ extra, w' = set_released (released w ++ extra) w.
Proof.
  unfold release_async.
  destruct (asyncDispose_method ∘ obj_caps <$> heap w !! o) as [[[]|]|];
    simpl; intros [= <-];
    first [by eexists [_]
          |exists []; by rewrite app_nil_r, set_released_same].
Qed.

Lemma release_sync_heap_object o w w' :
  final (release_sync (VObj o) w) = Some w' →
  ∃ extra, w' = set_released (released w ++ extra) w.
Proof.
  unfold release_sync.
  destruct (dispose_method ∘ obj_caps <$> heap w !! o) as [[[]|]|];
    simpl; intros [= <-];
    first [by eexists [_]
          |exists []; by rewrite app_nil_r, set_released_same].
Qed.

Lemma dispose_loop_heap_objects rec items w w' :
  Forall (λ item, heap_object item = true) items →
  final (dispose_loop rec items w) = Some w' →
  ∃ extra, w' = set_released (released w ++ extra) w.
Proof.
  intros Hitems. revert w.
  induction Hitems as [|item rest Hitem _ IH]; intros w.
  - intros [= <-]. exists []. by rewrite app_nil_r, set_released_same.
  - destruct item as [| | | | | |o|]; try done. cbn [dispose_loop].
    destruct (release_async rec (VObj o) w) as [[] w1|e w1|] eqn:Ha;
      cbn [bind];
      [|intros [= <-]; apply (release_async_heap_object rec o); by rewrite Ha
       |done].
    destruct (release_async_heap_object rec o w w1) as [x1 H1];
      [by rewrite Ha|].
    destruct (release_sync (VObj o) w1) as [[] w2|e w2|] eqn:Hs; cbn [bind];
      [| |done].
    + destruct (release_sync_heap_object o w1 w2) as [x2 H2]; [by rewrite Hs|].
      intros [x3 H3]%IH. exists (x1 ++ x2 ++ x3). subst. simpl.
      by rewrite <- !app_assoc.
    + destruct (release_sync_heap_object o w1 w2) as [x2 H2]; [by rewrite Hs|].
      intros [= <-]. exists (x1 ++ x2). subst. simpl. by rewrite <- !app_assoc.
Qed.

(** X19: The teardown of a registry that holds heap objects only (no collection)
    changes nothing but that registry, which it empties, and the release
    log, which it extends: the heap, the bindings, the singleton slots and
    the caches are as before, and so is every other registry.  The teardown
    of a scope does not reach what its host or another scope registered. *)
Theorem teardown_of_objects_is_local fuel r w w' :
  Forall (λ item, heap_object item = true) (registry w r) →
  final (asyncDispose fuel r w) = Some w' →
  (∃ extra, w' = set_released (released w ++ extra) (set_registry r [] w))
  ∧ ∀ c, c ≠ r → registry w' c = registry w c.
Proof.
  intros Hitems Hfin. destruct fuel as [|n]; [done|]. simpl in Hfin.
  apply dispose_loop_heap_objects in Hfin as [extra ->]; [|done].
  rewrite released_set_registry. split; [by exists extra|].
  intros c Hc. destruct c as [|s], r as [|s']; simpl; try done.
  rewrite list_lookup_alter_ne; [done|congruence].
Qed.

Lemma teardown_of_objects_is_local_witness :
  ∃ w',
    registry host_and_scope_disposables (CScope 0) = [VObj 1]
    ∧ final (asyncDispose 1 (CScope 0) host_and_scope_disposables) = Some w'
    ∧ registry w' CHost = [VObj 0]
    ∧ released w' = [(VObj 1, AsyncRelease)].
Proof.
  destruct (final (asyncDispose 1 (CScope 0) host_and_scope_disposables))
    as [w'|] eqn:Hfin; [|vm_compute in Hfin; discriminate].
  destruct (teardown_of_objects_is_local 1 (CScope 0)
              host_and_scope_disposables w') as [_ Hother].
  - repeat constructor.
  - exact Hfin.
  - exists w'. split; [vm_compute; reflexivity|]. split; [reflexivity|].
    split; [rewrite (Hother CHost) by done; vm_compute; reflexivity|].
    vm_compute in Hfin. injection Hfin as <-. reflexivity.
Defined.

(** *** Teardown ends *)

Lemma sum_list_with_alter_le {A} (f : A → nat) (g : A → A) i (l : list A) :
  (∀ x, f (g x) ≤ f x) →
  sum_list_with f (alter g i l) ≤ sum_list_with f l.
Proof.
  intros Hg. revert i. induction l as [|x l IH]; intros [|i]; simpl; try done.
  - specialize (Hg x). lia.
  - specialize (IH i). unfold alter in IH. lia.
Qed.

Lemma sum_list_with_alter_lt {A} (f : A → nat) (g : A → A) i (l : list A) x :
  l !! i = Some x → f (g x) < f x →
  sum_list_with f (alter g i l) < sum_list_with f l.
Proof.
  revert i. induction l as [|y l IH]; intros [|i]; simpl; try done.
  - intros [= ->] ?. lia.
  - intros Hi Hx. specialize (IH i Hi Hx). unfold alter in IH. lia.
Qed.

Lemma pending_swap_le r w : pending (set_registry r [] w) ≤ pending w.
Proof.
  unfold pending. destruct r as [|s]; simpl.
  - destruct (host_dispose w); lia.
  - apply Nat.add_le_mono_l, sum_list_with_alter_le. intros [cache d]. simpl.
    destruct d; lia.
Qed.

Lemma pending_swap_lt r w :
  registry w r ≠ [] → pending (set_registry r [] w) < pending w.
Proof.
  unfold pending. destruct r as [|s]; simpl.
  - destruct (host_dispose w); [done|lia].
  - destruct (scopes w !! s) as [[cache d]|] eqn:Hs; simpl; [|done].
    intros Hd. apply Nat.add_lt_mono_l.
    apply (sum_list_with_alter_lt _ _ _ _ _ Hs). simpl. destruct d; [done|lia].
Qed.

Lemma release_sync_ends item w :
  ∃ w', final (release_sync item w) = Some w' ∧ pending w' = pending w.
Proof.
  unfold release_sync. destruct item; simpl; eauto.
  destruct (dispose_method ∘ obj_caps <$> heap w !! o) as [[[]|]|]; simpl; eauto.
Qed.

Lemma release_async_ends rec n item w :
  (∀ r w0, pending w0 < n →
     ∃ w', final (rec r w0) = Some w' ∧ pending w' ≤ pending w0) →
  pending w < n →
  ∃ w', final (release_async rec item w) = Some w' ∧ pending w' ≤ pending w.
Proof.
  intros Hrec Hw. unfold release_async. destruct item; simpl; eauto.
  - destruct (asyncDispose_method ∘ obj_caps <$> heap w !! o) as [[[]|]|];
      simpl; eauto.
  - apply (Hrec c (set_released _ w)). exact Hw.
Qed.

Lemma dispose_loop_ends rec n items w :
  (∀ r w0, pending w0 < n →
     ∃ w', final (rec r w0) = Some w' ∧ pending w' ≤ pending w0) →
  pending w < n →
  ∃ w', final (dispose_loop rec items w) = Some w' ∧ pending w' ≤ pending w.
Proof.
  intros Hrec. revert w. induction items as [|item rest IH]; intros w Hw; simpl.
  - eauto.
  - destruct (release_async_ends rec n item w Hrec Hw) as (w1 & Ha & H1).
    destruct (release_async rec item w) as [[] w1'|e w1'|]; simpl in *;
      [|eauto|done].
    injection Ha as ->.
    destruct (release_sync_ends item w1) as (w2 & Hs & H2).
    destruct (release_sync item w1) as [[] w2'|e w2'|]; simpl in *;
      [|exists w2'; injection Hs as ->; split; [done|lia]|done].
    injection Hs as ->.
    destruct (IH w2) as (w3 & Hl & H3); [lia|]. exists w3. split; [done|lia].
Qed.

(** X20: Teardown ends, however the registries refer to each other: every
    teardown that finds a non-empty list empties it before it visits the
    items, so a chain of nested teardowns is at most as long as the number
    of collections with something registered.  With that much fuel and one
    more the model returns, normally or with a release's error, and no
    registry has been refilled. *)
Theorem teardown_ends fuel r w :
  pending w < fuel →
  ∃ w', final (asyncDispose fuel r w) = Some w' ∧ pending w' ≤ pending w.
Proof.
  revert r w. induction fuel as [|n IH]; intros r w Hw; [lia|]. simpl.
  destruct (registry w r) as [|item rest] eqn:Hreg.
  - simpl. eexists. split; [done|]. apply pending_swap_le.
  - assert (pending (set_registry r [] w) < pending w) as Hlt
      by (apply pending_swap_lt; by rewrite Hreg).
    destruct (dispose_loop_ends (asyncDispose n) n (item :: rest)
                (set_registry r [] w) IH) as (w' & Hfin & Hle); [lia|].
    exists w'. split; [done|lia].
Qed.

Lemma teardown_ends_witness :
  ∃ w',
    pending registered_in_each_other = 2
    ∧ final (asyncDispose 3 CHost registered_in_each_other) = Some w'
    ∧ pending w' = 0.
Proof.
  destruct (teardown_ends 3 CHost registered_in_each_other) as (w' & Hfin & Hle).
  - vm_compute. lia.
  - exists w'. split; [reflexivity|]. split; [exact Hfin|].
    vm_compute in Hfin. injection Hfin as <-. reflexivity.
Defined.

(** ** What resolution does to the registries *)

Lemma registry_set_cache s b v w r : registry (set_cache s b v w) r = registry w r.
Proof.
  destruct r as [|s']; simpl; [done|]. destruct (decide (s = s')) as [->|Hne].
  - rewrite list_lookup_alter_eq. by destruct (scopes w !! s').
  - by rewrite list_lookup_alter_ne.
Qed.

Lemma registry_register r v w r' :
  registry w r' `prefix_of` registry (register r v w) r'.
Proof.
  unfold register. destruct r as [|s], r' as [|s']; simpl; try done.
  - by apply prefix_app_r.
  - destruct (decide (s = s')) as [->|Hne].
    + rewrite list_lookup_alter_eq. destruct (scopes w !! s'); simpl; [|done].
      by apply prefix_app_r.
    + by rewrite list_lookup_alter_ne.
Qed.

Lemma only_adds_refl w : only_adds w w.
Proof. by unfold only_adds; split_and!. Qed.

Lemma only_adds_trans w1 w2 w3 :
  only_adds w1 w2 → only_adds w2 w3 → only_adds w1 w3.
Proof.
  intros (H1 & H2 & H3 & H4) (H5 & H6 & H7 & H8).
  unfold only_adds; split_and!.
  - congruence.
  - intros r. etrans; [apply H2|apply H6].
  - congruence.
  - etrans; [exact H4|exact H8].
Qed.

Lemma only_adds_alloc c w : only_adds w (alloc c w).2.
Proof.
  unfold only_adds; split_and!.
  - done.
  - intros r. by destruct r.
  - done.
  - simpl. rewrite fmap_app. by apply prefix_app_r.
Qed.

Lemma only_adds_set_prop t k v w : only_adds w (set_prop t k v w).
Proof.
  destruct t as [| | | | | |o|]; try apply only_adds_refl.
  unfold only_adds; split_and!.
  - done.
  - intros r. by destruct r.
  - done.
  - simpl. rewrite (list_fmap_alter obj_caps _ id).
    + by rewrite list_alter_id.
    + apply Forall_forall. by intros ob _.
Qed.

Lemma only_adds_set_store b v w w1 : only_adds w w1 → only_adds w (set_store b v w1).
Proof.
  intros (H1 & H2 & H3 & H4). unfold only_adds; split_and!.
  - done.
  - intros r. specialize (H2 r). by destruct r.
  - done.
  - done.
Qed.

Lemma only_adds_set_cache s b v w w1 :
  only_adds w w1 → only_adds w (set_cache s b v w1).
Proof.
  intros (H1 & H2 & H3 & H4). unfold only_adds; split_and!.
  - done.
  - intros r. by rewrite registry_set_cache.
  - simpl. by rewrite length_alter.
  - done.
Qed.

Lemma only_adds_register r v w : only_adds w (register r v w).
Proof.
  unfold only_adds; split_and!.
  - by destruct r.
  - intros r'. apply registry_register.
  - destruct r; simpl; [done|]. by rewrite length_alter.
  - by destruct r.
Qed.

Ltac only_adds_frame :=
  first [ exact I
        | exact only_adds_refl
        | exact only_adds_trans
        | exact only_adds_alloc
        | exact only_adds_set_prop
        | by (intros ?????? _ _ _; apply only_adds_set_store)
        | by (intros ?????? _ _ _ _; apply only_adds_set_cache)
        | by (intros ??? _; apply only_adds_register) ].

Lemma get_only_adds classes fuel c k w :
  frames only_adds w (get classes fuel c k w).
Proof. apply (get_frames classes everywhere only_adds); only_adds_frame. Qed.

Lemma run_only_adds classes fuel self cb code w :
  frames only_adds w (run classes fuel self cb code w).
Proof. apply (get_run_frames classes everywhere only_adds); only_adds_frame. Qed.

(** X21: The container's own steps of a resolution and of an injection only
    add.  Provided the user code they run and the nested resolutions call
    no release method, take nothing out of a registry, create no scope and
    leave the release methods of the heap objects alone, neither does the
    resolution or the injection as a whole, whether it returns or raises:
    the release log is as before, every registry is extended at its end, the
    scopes are as many and the heap objects keep their release methods. *)
Theorem resolution_only_adds classes rg rr c k service props w :
  (∀ c0 k0 w0, frames only_adds w0 (rg c0 k0 w0)) →
  (∀ self cb code w0, frames only_adds w0 (rr self cb code w0)) →
  frames only_adds w (get_open classes rg rr c k w)
  ∧ frames only_adds w (inject classes rg rr c c service props w).
Proof.
  intros Hrg Hrr. split.
  - apply (get_open_frames classes everywhere only_adds);
      first [by intros; apply Hrg | by intros; apply Hrr | only_adds_frame].
  - apply (inject_frames classes everywhere only_adds);
      first [by intros; apply Hrg | by intros; apply Hrr | only_adds_frame].
Qed.

Lemma resolution_only_adds_witness :
  ∃ w',
    final (get sample_classes 5 CHost Logger three_disposables) = Some w'
    ∧ released w' = released three_disposables
    ∧ registry three_disposables CHost `prefix_of` registry w' CHost.
Proof.
  destruct (final (get sample_classes 5 CHost Logger three_disposables))
    as [w'|] eqn:Hfin; [|vm_compute in Hfin; discriminate].
  destruct (resolution_only_adds sample_classes (get sample_classes 4)
              (run sample_classes 4) CHost Logger Logger [] three_disposables)
    as [Hget _].
  - intros c0 k0 w0. apply get_only_adds.
  - intros self cb code w0. apply run_only_adds.
  - destruct (Hget w' Hfin) as (Hrel & Hreg & _).
    exists w'. split; [reflexivity|]. split; [exact Hrel|apply Hreg].
Defined.

(** ** Scoped instances and the scope's registry *)

Lemma registerIfDisposable_registers_scope instance s w v w' :
  registerIfDisposable instance (CScope s) w = Ok v w' →
  disposable w' v = Some true →
  s < length (scopes w') →
  ∃ d, registry w' (CScope s) = d ++ [v].
Proof.
  intros Hreg Hd Hs.
  destruct (registerIfDisposable_Ok _ _ _ _ _ Hreg) as (-> & _ & Hheap & _).
  rewrite (disposable_heap w) in Hd by done.
  unfold registerIfDisposable in Hreg. rewrite Hd in Hreg. injection Hreg as <-.
  exists (registry w (CScope s)). unfold register in *. simpl in *.
  rewrite length_alter in Hs. apply lookup_lt_is_Some in Hs as [sc Hsc].
  by rewrite list_lookup_alter_eq, Hsc.
Qed.

Lemma invoke_synthesized_registers_scope classes rg rr f self s w v w' :
  synthesized f = true →
  invoke classes rg rr f self (CScope s) w = Ok v w' →
  disposable w' v = Some true →
  s < length (scopes w') →
  ∃ d, registry w' (CScope s) = d ++ [v].
Proof.
  intros Hf Hinv Hd Hs. destruct f as [g|base args|x|body]; try done;
    simpl in Hinv.
  - destruct (inject _ _ _ _ _ _ _ _) as [v1 w1|e w1|]; simpl in Hinv; try done.
    + destruct (registerIfDisposable v1 (CScope s) w1) as [v2 w2|e w2|] eqn:Hreg;
        simpl in Hinv.
      * injection Hinv as <- <-. by eapply registerIfDisposable_registers_scope.
      * destruct (call _ _ _ _ _ _ _) as [v3 w3| |]; simpl in Hinv; try done.
        by eapply registerIfDisposable_registers_scope.
      * done.
    + destruct (call _ _ _ _ _ _ _) as [v3 w3| |]; simpl in Hinv; try done.
      by eapply registerIfDisposable_registers_scope.
  - destruct (inject _ _ _ _ _ _ _ _) as [v1 w1|e w1|]; simpl in Hinv; try done.
    by eapply registerIfDisposable_registers_scope.
  - by eapply registerIfDisposable_registers_scope.
Qed.

(** X22: A scoped service built inside a scope belongs to that scope: when the
    factory ran and returned a disposable instance, the instance is the last
    item of the scope's own registry (so the scope's teardown releases it)
    and the scope's cache entry holds it. *)
Theorem scoped_disposable_belongs_to_scope classes fuel s k b f w v w' :
  k ≠ KServiceCollection →
  getTag w k = Some (b, Scoped f) →
  synthesized f = true →
  s < length (scopes w) →
  truthy (scope_cache w s b) = false →
  get classes fuel (CScope s) k w = Ok v w' →
  disposable w' v = Some true →
  (∃ d, registry w' (CScope s) = d ++ [v]) ∧ scope_cache w' s b = v.
Proof.
  intros Hne Hk Hsyn Hs Hc Hget Hd.
  destruct (scope_get_scoped_result _ _ _ _ _ _ _ _ _ Hne Hk Hs Hget)
    as [_ [(Ht & _)|(_ & Hentry & n & w1 & -> & Hinv & ->)]]; [congruence|].
  assert (final (invoke classes (get classes n) (run classes n) f
                   (CScope s) (CScope s) w) = Some w1) as Hfin by by rewrite Hinv.
  split.
  - rewrite registry_set_cache.
    eapply invoke_synthesized_registers_scope; [exact Hsyn|exact Hinv| |].
    + by rewrite (disposable_heap (set_cache s b v w1)).
    + by rewrite (invoke_scopes_length _ _ _ _ _ _ _ Hfin).
  - unfold scope_cache. by rewrite Hentry.
Qed.

Lemma scoped_disposable_belongs_to_scope_witness :
  let w := (createScope (addScoped Connection (ServiceFun Connection) empty_world)).2 in
  ∃ w' d,
    get sample_classes 5 (CScope 0) Connection w = Ok (VObj 0) w'
    ∧ registry w' (CScope 0) = d ++ [VObj 0]
    ∧ scope_cache w' 0 0 = VObj 0
    ∧ registry w' CHost = [].
Proof.
  intros w.
  destruct (get sample_classes 5 (CScope 0) Connection w) as [v w'| |] eqn:Hget;
    try (vm_compute in Hget; discriminate).
  assert (v = VObj 0) as -> by (vm_compute in Hget; by injection Hget as <- _).
  destruct (scoped_disposable_belongs_to_scope sample_classes 5 0 Connection 0
              (createServiceFactory Connection (ServiceFun Connection))
              w (VObj 0) w') as [[d Hd] Hcache].
  - done.
  - vm_compute. reflexivity.
  - reflexivity.
  - vm_compute. lia.
  - reflexivity.
  - exact Hget.
  - vm_compute in Hget. injection Hget as <-. vm_compute. reflexivity.
  - exists w', d. split; [reflexivity|]. split; [exact Hd|].
    split; [exact Hcache|].
    vm_compute in Hget. injection Hget as <-. reflexivity.
Defined.

(** ** The first revision: who owns a singleton *)

Lemma asyncDispose_same_bindings fuel r w w' :
  final (asyncDispose fuel r w) = Some w' →
  bindings w' = bindings w ∧ services w' = services w.
Proof.
  apply (asyncDispose_frames
           (λ w w', bindings w' = bindings w ∧ services w' = services w)).
  - done.
  - intros w1 w2 w3 [H1 H2] [H3 H4]. split; congruence.
  - done.
  - intros c w0. by destruct c.
Qed.

Lemma asyncDispose_leaves_empty fuel r w w' :
  final (asyncDispose fuel r w) = Some w' → registry w' r = [].
Proof.
  intros Hfin. destruct fuel as [|n]; [done|]. simpl in Hfin.
  eapply (dispose_loop_frames (λ w w', registry w r = [] → registry w' r = []));
    [done|auto|done| |exact Hfin|apply registry_swapped].
  intros c w0 w1. apply asyncDispose_keeps_empty.
Qed.

Lemma disposable_truthy w v : disposable w v = Some true → truthy v = true.
Proof. by destruct v. Qed.

(** X23: In the first revision a singleton belongs to whoever resolves it first:
    resolved through a scope, a disposable instance goes into that scope's
    registry and not into the host's, while the instance is stored in the
    binding, which all contexts share.  Once that scope is torn down its
    registry is empty, and the host and every scope still resolve the key to
    the same instance. *)
Theorem first_revision_singleton_owned_by_scope factory_call s k b v store w :
  (∀ x self cb w0,
     factory_call (FactoryVal x) self cb w0 = registerIfDisposable x cb w0) →
  getTag w k = Some (b, Singleton (FactoryVal v) store) →
  truthy store = false →
  disposable w v = Some true →
  s < length (scopes w) →
  ∃ w1,
    Revision1.get factory_call (CScope s) k w = Ok v w1
    ∧ registry w1 (CScope s) = registry w (CScope s) ++ [v]
    ∧ registry w1 CHost = registry w CHost
    ∧ ∀ fuel w2,
        final (asyncDispose fuel (CScope s) w1) = Some w2 →
        registry w2 (CScope s) = []
        ∧ ∀ c, Revision1.get factory_call c k w2 = Ok v w2.
Proof.
  intros Hval Hk Hstore Hd Hs.
  exists (set_store b v (register (CScope s) v w)).
  assert (getTag (set_store b v (register (CScope s) v w)) k
          = Some (b, Singleton (FactoryVal v) v)) as Hk1
    by by eapply (getTag_set_store (register (CScope s) v w)).
  split; [|split; [|split]].
  - simpl. unfold Revision1.scope_get, Revision1.getFromTaggedService.
    rewrite Hk. simpl. rewrite Hstore, Hval. unfold registerIfDisposable.
    by rewrite Hd.
  - apply lookup_lt_is_Some in Hs as [sc Hsc]. unfold register. simpl.
    by rewrite list_lookup_alter_eq, Hsc.
  - done.
  - intros fuel w2 Hfin. split; [by eapply asyncDispose_leaves_empty|].
    destruct (asyncDispose_same_bindings _ _ _ _ Hfin) as [Hb Hm].
    assert (getTag w2 k = Some (b, Singleton (FactoryVal v) v)) as Hk2.
    { apply getTag_Some in Hk1 as [H1 H2]. apply getTag_Some.
      by rewrite Hb, Hm. }
    intros [|s']; simpl;
      unfold Revision1.collection_get, Revision1.scope_get,
        Revision1.getFromTaggedService;
      rewrite Hk2; simpl; by rewrite (disposable_truthy _ _ Hd).
Qed.

Lemma first_revision_singleton_owned_by_scope_witness :
  ∃ w1,
    Revision1.get (invoke sample_classes (get sample_classes 1)
                     (run sample_classes 1))
      (CScope 0) Connection shared_connection = Ok (VObj 0) w1
    ∧ registry w1 (CScope 0) = [VObj 0]
    ∧ registry w1 CHost = [].
Proof.
  destruct (first_revision_singleton_owned_by_scope
              (invoke sample_classes (get sample_classes 1)
                 (run sample_classes 1))
              0 Connection 0 (VObj 0) VUndefined shared_connection)
    as (w1 & Hget & Hscope & Hhost & _).
  - reflexivity.
  - vm_compute. reflexivity.
  - reflexivity.
  - vm_compute. reflexivity.
  - vm_compute. lia.
  - exists w1. split; [exact Hget|]. split; [by rewrite Hscope|by rewrite Hhost].
Defined.

(** ** Resolutions and the scopes *)

Lemma other_scopes_trans a w1 w2 w3 :
  other_scopes a w1 w2 → other_scopes a w2 w3 → other_scopes a w1 w3.
Proof. intros H1 H2 s Hs. rewrite H2, H1; done. Qed.

Lemma other_scopes_set_prop a t k v w : other_scopes a w (set_prop t k v w).
Proof. by destruct t. Qed.

Lemma other_scopes_set_cache a s b v w w1 :
  host_or a (CScope s) → other_scopes a w w1 →
  other_scopes a w (set_cache s b v w1).
Proof.
  intros [Hs|Hs] H s' Hs'; [discriminate|]. injection Hs as ->. simpl.
  rewrite list_lookup_alter_ne by done. by apply H.
Qed.

Lemma other_scopes_register a r v w :
  host_or a r → other_scopes a w (register r v w).
Proof.
  intros [-> | ->]; [done|]. intros s' Hs'. simpl.
  by rewrite list_lookup_alter_ne.
Qed.

Ltac other_scopes_frame :=
  first [ done
        | by left
        | by right
        | exact (other_scopes_trans _)
        | exact (other_scopes_set_prop _)
        | by (intros ?????? ? _ _ _ ?; apply other_scopes_set_cache)
        | by (intros; apply other_scopes_register) ].

Lemma get_run_other_scopes classes a fuel :
  (∀ c k w, host_or a c → frames (other_scopes a) w (get classes fuel c k w))
  ∧ (∀ self cb code w, host_or a self → host_or a cb →
       frames (other_scopes a) w (run classes fuel self cb code w)).
Proof.
  apply (get_run_frames classes (host_or a) (other_scopes a));
    other_scopes_frame.
Qed.

(** X24: The container's own steps of a resolution stay in its scope.
    Provided the user code that runs with the host and the nested
    resolutions on the host leave the scopes as they are, a resolution on
    the host changes no scope (no scope's cache and no scope's registry);
    and provided the user code and the nested resolutions that run with the
    host or with scope [a] leave the other scopes as they are, so does a
    resolution in scope [a], whether it returns or raises. *)
Theorem resolution_stays_in_its_scope classes rg rr k w :
  ((∀ k0 w0, frames same_scopes w0 (rg CHost k0 w0)) →
   (∀ code w0, frames same_scopes w0 (rr CHost CHost code w0)) →
   frames same_scopes w (get_open classes rg rr CHost k w))
  ∧ (∀ a,
       (∀ c0 k0 w0, host_or a c0 → frames (other_scopes a) w0 (rg c0 k0 w0)) →
       (∀ self cb code w0, host_or a self → host_or a cb →
          frames (other_scopes a) w0 (rr self cb code w0)) →
       frames (other_scopes a) w (get_open classes rg rr (CScope a) k w)).
Proof.
  split.
  - intros Hrg Hrr.
    apply (get_open_frames classes host_only same_scopes);
      first [by intros c k0 w0 -> | by intros self cb code w0 -> ->
            |host_only_frame].
  - intros a Hrg Hrr.
    apply (get_open_frames classes (host_or a) (other_scopes a));
      first [exact Hrg | exact Hrr | other_scopes_frame].
Qed.

Lemma resolution_stays_in_its_scope_witness :
  let w := (createScope host_and_scope_disposables).2 in
  ∃ w',
    final (get sample_classes 5 (CScope 1) Connection w) = Some w'
    ∧ scopes w' !! 1 ≠ scopes w !! 1
    ∧ scopes w' !! 0 = scopes w !! 0.
Proof.
  intros w.
  destruct (final (get sample_classes 5 (CScope 1) Connection w))
    as [w'|] eqn:Hfin; [|vm_compute in Hfin; discriminate].
  destruct (resolution_stays_in_its_scope sample_classes (get sample_classes 4)
              (run sample_classes 4) Connection w) as [_ Hscope].
  exists w'. split; [reflexivity|]. split.
  - vm_compute in Hfin. injection Hfin as <-. vm_compute. discriminate.
  - apply (Hscope 1); [apply get_run_other_scopes|apply get_run_other_scopes
                      |exact Hfin|done].
Defined.

(** ** Injection on the host *)

Lemma inject_props_app rg self value l1 l2 w :
  inject_props rg self value (l1 ++ l2) w
  = bind (inject_props rg self value l1 w)
      (λ _ w1, inject_props rg self value l2 w1).
Proof.
  revert w. induction l1 as [|[key dep] rest IH]; intros w; [done|]. simpl.
  destruct (rg self dep w) as [v1 w1|e w1|]; simpl; auto.
Qed.

Lemma inject_props_same_bindings classes fuel self value meta w w' :
  final (inject_props (get classes fuel) self value meta w) = Some w' →
  same_bindings w w'.
Proof.
  apply (inject_props_frames everywhere same_bindings); try done.
  - intros w1 w2 w3 [H1 H2] [H3 H4]. split; congruence.
  - intros t key v w0. by destruct t.
  - intros c k w0 _ w1. apply get_same_bindings.
Qed.

(** X25: A class with an injected property whose key, none of the
    container's own classes, is bound as scoped cannot be injected on the
    host: the object is constructed, the properties before that one are set,
    and then the injection raises the scope error; the object is never
    returned. *)
Theorem scoped_dependency_needs_a_scope
  classes fuel service props pre key k post b f w value w1 w2 :
  inject_metadata (classes service) = Some (pre ++ (key, k) :: post) →
  getTag w k = Some (b, Scoped f) →
  self_key k = false →
  construct classes (run classes (S fuel)) CHost CHost service props w
  = Ok value w1 →
  inject_props (get classes (S fuel)) CHost value pre w1 = Ok value w2 →
  inject_top classes (S fuel) CHost service props w
  = Err (TypeError "Cannot create service outside of scope") w2.
Proof.
  intros Hm Hk Hself Hc Hpre. unfold inject_top, inject. rewrite Hm, Hc.
  cbn [bind]. rewrite inject_props_app, Hpre. cbn [bind inject_props].
  assert (getTag w2 k = Some (b, Scoped f)) as Hk2.
  { assert (same_bindings w w1) as H1
      by (eapply construct_same_bindings; by rewrite Hc).
    assert (same_bindings w1 w2) as H2
      by (eapply inject_props_same_bindings; by rewrite Hpre).
    destruct (getTag_same_bindings _ _ _ _ _ H1 Hk) as (t1 & Hk1 & Hs1).
    destruct (getTag_same_bindings _ _ _ _ _ H2 Hk1) as (t2 & Hk2 & Hs2).
    destruct t2; try (rewrite Hs1 in Hs2; discriminate).
    rewrite Hs1 in Hs2. by injection Hs2 as ->. }
  assert (get classes (S fuel) CHost k w2
          = Err (TypeError "Cannot create service outside of scope") w2) as ->.
  { destruct k; try discriminate. simpl. unfold collection_get. by rewrite Hk2. }
  done.
Qed.

Lemma scoped_dependency_needs_a_scope_witness :
  let w := addScoped Logger (ServiceFun Logger) empty_world in
  ∃ w2,
    getTag w Logger
    = Some (0, Scoped (createServiceFactory Logger (ServiceFun Logger)))
    ∧ inject_top sample_classes 2 CHost Service [] w
      = Err (TypeError "Cannot create service outside of scope") w2
    ∧ heap w2 = [mkObj no_caps ∅].
Proof.
  intros w.
  assert (construct sample_classes (run sample_classes 2) CHost CHost Service [] w
          = Ok (VObj 0) (alloc no_caps w).2) as Hc by (vm_compute; reflexivity).
  exists (alloc no_caps w).2. split; [reflexivity|]. split; [|reflexivity].
  apply (scoped_dependency_needs_a_scope sample_classes 1 Service [] []
           "logger"%string Logger [] 0
           (createServiceFactory Logger (ServiceFun Logger)) w (VObj 0)
           (alloc no_caps w).2 (alloc no_caps w).2).
  - reflexivity.
  - reflexivity.
  - reflexivity.
  - exact Hc.
  - reflexivity.
Defined.
